(** * Shallow embedding of the Relicta Docker plugin (src/plugin.go)

    Go strings are byte strings; they are modelled as [string] (lists of
    8-bit [ascii]).  The plugin runs on a Unix host: [filepath.Separator] is
    ['/'], [filepath.IsAbs] is a ['/'] prefix and [filepath.FromSlash] is
    the identity. *)

From Stdlib Require Import Bool Arith List Lia Ascii String.
From Stdlib Require Import DecimalString.
Import ListNotations.
Open Scope string_scope.

(** ** Helpers from Go's [strings] package *)

Definition char_eqb (a b : ascii) : bool := Ascii.eqb a b.

(** [strings.HasPrefix(s, p)] *)
Definition HasPrefix (s p : string) : bool := String.prefix p s.

(** [strings.Contains(s, sub)] *)
Fixpoint Contains (s sub : string) : bool :=
  String.prefix sub s ||
  match s with
  | EmptyString => false
  | String _ s' => Contains s' sub
  end.

(** [strings.TrimPrefix(s, p)] *)
Definition TrimPrefix (s p : string) : string :=
  if String.prefix p s then substring (String.length p) (String.length s) s
  else s.

(** ** [path/filepath.Clean] (Unix), following Go's lexical algorithm.

    The output [lazybuf] is kept reversed: its head is the byte at
    position [out.w - 1].  The flag [copying] stands for the inner loop of
    the default case, which copies the bytes of a path element up to the
    next separator. *)

Definition is_sep (c : ascii) : bool := char_eqb c "/"%char.

Definition at_sep_or_end (s : string) : bool :=
  match s with
  | EmptyString => true
  | String c _ => is_sep c
  end.

(** [out.w--; for out.w > dotdot && !IsPathSeparator(out.index(out.w)) { out.w-- }]
    after the first decrement, [c] is the byte at the new [out.w]. *)
Fixpoint backtrack (c : ascii) (o : list ascii) (dotdot : nat) : list ascii :=
  if (Nat.ltb dotdot (List.length o)) && negb (is_sep c) then
    match o with
    | c2 :: o2 => backtrack c2 o2 dotdot
    | [] => o
    end
  else o.

(** The [..] case of the loop, after [r += 2]. *)
Definition dotdot_step (rooted : bool) (out : list ascii) (dotdot : nat)
  : list ascii * nat :=
  if Nat.ltb dotdot (List.length out) then
    match out with
    | c :: o => (backtrack c o dotdot, dotdot)
    | [] => (out, dotdot)
    end
  else if negb rooted then
    let o := if Nat.ltb 0 (List.length out) then "/"%char :: out else out in
    ("."%char :: "."%char :: o, List.length ("."%char :: "."%char :: o))
  else (out, dotdot).

Fixpoint clean_loop (rooted copying : bool) (s : string)
         (out : list ascii) (dotdot : nat) {struct s} : list ascii :=
  match s with
  | EmptyString => out
  | String c s1 =>
      if copying && negb (is_sep c) then
        clean_loop rooted true s1 (c :: out) dotdot
      else if is_sep c then
        clean_loop rooted false s1 out dotdot
      else if char_eqb c "."%char && at_sep_or_end s1 then
        clean_loop rooted false s1 out dotdot
      else
        let default :=
          let out' :=
            if (rooted && negb (Nat.eqb (List.length out) 1)) || (negb rooted && negb (Nat.eqb (List.length out) 0))
            then "/"%char :: out else out in
          clean_loop rooted true s1 (c :: out') dotdot in
        match s1 with
        | String d s2 =>
            if char_eqb c "."%char && char_eqb d "."%char && at_sep_or_end s2 then
              let '(out', dotdot') := dotdot_step rooted out dotdot in
              clean_loop rooted false s2 out' dotdot'
            else default
        | EmptyString => default
        end
  end.

Fixpoint string_of_rev (o : list ascii) (acc : string) : string :=
  match o with
  | [] => acc
  | c :: o' => string_of_rev o' (String c acc)
  end.

Definition Clean (path : string) : string :=
  match path with
  | EmptyString => "."
  | String c rest =>
      let out :=
        if is_sep c then clean_loop true false rest ["/"%char] 1
        else clean_loop false false path [] 0 in
      match out with
      | [] => "."
      | _ => string_of_rev out EmptyString
      end
  end.

(** [filepath.IsAbs] on Unix. *)
Definition IsAbs (path : string) : bool := HasPrefix path "/".

(** ** Validators.  [None] is a nil [error]; [Some msg] carries [err.Error()]. *)

Definition validatePath (path : string) : option string :=
  if String.eqb path "" then None
  else
    let cleaned := Clean path in
    if IsAbs cleaned then Some "absolute paths are not allowed"
    else if HasPrefix cleaned ".." || Contains cleaned "/.." then
      Some "path traversal detected: cannot use '..' to escape working directory"
    else None.

(** [strings.Split(s, sep)] for a one-byte separator, as used by the
    plugin ([strings.Split(version, ".")]). *)
Fixpoint Split (s : string) (sep : ascii) : list string :=
  match s with
  | EmptyString => [EmptyString]
  | String a s' =>
      let parts := Split s' sep in
      if char_eqb a sep then EmptyString :: parts
      else match parts with
           | x :: xs => String a x :: xs
           | [] => [String a EmptyString]
           end
  end.

(** The path segments of a (cleaned) path. *)
Definition segments (p : string) : list string := Split p "/"%char.

(** [strings.Join(elems, sep)] *)
Fixpoint Join (elems : list string) (sep : string) : string :=
  match elems with
  | [] => EmptyString
  | [e] => e
  | e :: es => e ++ sep ++ Join es sep
  end.

(** Drop the first [n] bytes ([s[n:]]). *)
Fixpoint skip (n : nat) (s : string) : string :=
  match n, s with
  | 0, _ => s
  | S n', String _ s' => skip n' s'
  | S _, EmptyString => EmptyString
  end.

(** [strings.ReplaceAll(s, old, new)] for a non-empty [old]: the leftmost
    occurrence is replaced, the scan resumes after it, and so on.  [fuel]
    bounds the number of steps; [ReplaceAll] gives it the length of [s]. *)
Fixpoint replace_fuel (fuel : nat) (old new s : string) : string :=
  match fuel with
  | 0 => s
  | S f =>
      match s with
      | EmptyString => EmptyString
      | String c s' =>
          if String.prefix old s then new ++ replace_fuel f old new (skip (String.length old) s)
          else String c (replace_fuel f old new s')
      end
  end.

Definition ReplaceAll (s old new : string) : string :=
  replace_fuel (String.length s) old new s.

(** [fmt.Sprintf("%d", n)] *)
Definition itoa (n : nat) : string := NilEmpty.string_of_uint (Nat.to_uint n).

(** ** The regular expressions of the validators, as matchers.
    Go's RE2 anchors [^] and [$] at the ends of the whole text. *)

Definition in_range (lo hi c : ascii) : bool :=
  Nat.leb (nat_of_ascii lo) (nat_of_ascii c) && Nat.leb (nat_of_ascii c) (nat_of_ascii hi).
Definition is_alpha (c : ascii) : bool := in_range "a"%char "z"%char c || in_range "A"%char "Z"%char c.
Definition is_digit (c : ascii) : bool := in_range "0"%char "9"%char c.
Definition is_alnum (c : ascii) : bool := is_alpha c || is_digit c.

Fixpoint str_forallb (p : ascii -> bool) (s : string) : bool :=
  match s with
  | EmptyString => true
  | String c s' => p c && str_forallb p s'
  end.

Fixpoint last_char (s : string) : option ascii :=
  match s with
  | EmptyString => None
  | String c EmptyString => Some c
  | String _ s' => last_char s'
  end.

(** [^F M* L$] with [L] included in [M]: a first byte in [F], then at least
    one byte, all in [M], the last one in [L]. *)
Definition match_first_mid_last (F M L : ascii -> bool) (s : string) : bool :=
  match s with
  | EmptyString => false
  | String c rest =>
      F c && str_forallb M rest &&
      match last_char rest with Some d => L d | None => false end
  end.

(** [^F M*$] *)
Definition match_first_mid (F M : ascii -> bool) (s : string) : bool :=
  match s with
  | EmptyString => false
  | String c rest => F c && str_forallb M rest
  end.

(** [^[a-zA-Z0-9][a-zA-Z0-9._/-]*[a-zA-Z0-9]$] *)
Definition imageNamePattern : string -> bool :=
  match_first_mid_last is_alnum
    (fun c => is_alnum c || char_eqb c "."%char || char_eqb c "_"%char || char_eqb c "/"%char || char_eqb c "-"%char)
    is_alnum.

(** [^[a-zA-Z0-9][a-zA-Z0-9._-]*$] *)
Definition tagPattern : string -> bool :=
  match_first_mid is_alnum
    (fun c => is_alnum c || char_eqb c "."%char || char_eqb c "_"%char || char_eqb c "-"%char).

(** [^[a-zA-Z0-9][a-zA-Z0-9.-]*(:[0-9]+)?$]; [':'] is not in the middle
    class, so the first [':'] starts the port. *)
Fixpoint registry_rest (s : string) : bool :=
  match s with
  | EmptyString => true
  | String c s' =>
      if is_alnum c || char_eqb c "."%char || char_eqb c "-"%char then registry_rest s'
      else if char_eqb c ":"%char then
        match s' with
        | EmptyString => false
        | _ => str_forallb is_digit s'
        end
      else false
  end.

Definition registryPattern (s : string) : bool :=
  match s with
  | EmptyString => false
  | String c rest => is_alnum c && registry_rest rest
  end.

(** [^[a-zA-Z_][a-zA-Z0-9_]*$] *)
Definition buildArgKeyPattern : string -> bool :=
  match_first_mid (fun c => is_alpha c || char_eqb c "_"%char)
                  (fun c => is_alnum c || char_eqb c "_"%char).

(** [^[a-zA-Z][a-zA-Z0-9._-]*[a-zA-Z0-9]$] *)
Definition labelKeyPattern : string -> bool :=
  match_first_mid_last is_alpha
    (fun c => is_alnum c || char_eqb c "."%char || char_eqb c "_"%char || char_eqb c "-"%char)
    is_alnum.

(** ** The validators *)

Definition validateImageName (name : string) : option string :=
  if String.eqb name "" then Some "image name cannot be empty"
  else if Nat.ltb 256 (String.length name) then Some "image name too long (max 256 characters)"
  else if negb (imageNamePattern name) then Some "invalid image name: contains disallowed characters"
  else if Contains name ".." then Some "image name cannot contain '..'"
  else None.

Definition validateTag (tag : string) : option string :=
  if String.eqb tag "" then Some "tag cannot be empty"
  else if Nat.ltb 128 (String.length tag) then Some "tag too long (max 128 characters)"
  else if negb (tagPattern tag) then Some "invalid tag: contains disallowed characters"
  else None.

Definition validateRegistry (registry : string) : option string :=
  if String.eqb registry "" || String.eqb registry "docker.io" then None
  else if Nat.ltb 256 (String.length registry) then Some "registry URL too long"
  else if negb (registryPattern registry) then Some "invalid registry URL format"
  else None.

Definition validateBuildArgKey (key : string) : option string :=
  if negb (buildArgKeyPattern key)
  then Some "invalid build arg key: must be alphanumeric with underscores"
  else None.

Definition validateLabelKey (key : string) : option string :=
  if String.eqb key "" then Some "label key cannot be empty"
  else if Nat.ltb 256 (String.length key) then Some "label key too long (max 256 characters)"
  else if negb (labelKeyPattern key)
  then Some "invalid label key: must be alphanumeric with dots, dashes, or underscores"
  else None.

(** ** Data model *)

(** [Config].  The Go maps [BuildArgs] and [Labels] are association lists
    with distinct keys, listed in the order in which [for key := range]
    visits them in the run being modelled (Go leaves that order open). *)
Record Config := {
  Registry : string;
  Image : string;
  Tags : list string;
  Dockerfile : string;
  Context : string;
  BuildArgs : list (string * string);
  Platforms : list string;
  Username : string;
  Password : string;
  Push : bool;
  Labels : list (string * string);
  CacheFrom : list string;
  NoCache : bool;
  Target : string
}.

(** [plugin.ReleaseContext]: the plugin reads its [Version] only. *)
Record ReleaseContext := { Version : string }.

(** The values stored in [ExecuteResponse.Outputs] ([map[string]any]). *)
Inductive any :=
| AString (s : string)
| AStrings (l : list string)
| ABool (b : bool).

Record ExecuteResponse := {
  Success : bool;
  Message : string;
  Error : string;
  Outputs : list (string * any)
}.

(** [&plugin.ExecuteResponse{Success: false, Error: msg}] *)
Definition failure (msg : string) : ExecuteResponse :=
  {| Success := false; Message := ""; Error := msg; Outputs := [] |}.

(** ** Tag resolution (lines 276-316) *)

(** [version], [major], [minor], [patch] *)
Definition version_parts (v : string) : string * string * string * string :=
  let version := TrimPrefix v "v" in
  let parts := Split version "."%char in
  (version, nth 0 parts "", nth 1 parts "", nth 2 parts "").

Definition resolveTag (v tag : string) : string :=
  let '(version, major, minor, patch) := version_parts v in
  let resolved := tag in
  let resolved := ReplaceAll resolved "{{version}}" version in
  let resolved := ReplaceAll resolved "{{major}}" major in
  let resolved := ReplaceAll resolved "{{minor}}" minor in
  let resolved := ReplaceAll resolved "{{patch}}" patch in
  resolved.

Definition default_tags : list string := ["{{version}}"; "latest"].

Definition effective_tags (cfg : Config) : list string :=
  match Tags cfg with
  | [] => default_tags
  | ts => ts
  end.

(** The [for _, tag := range tags] loop: [inl] is the early failure
    return, [inr] the final [resolvedTags]. *)
Fixpoint resolve_tags (v : string) (tags : list string) : string + list string :=
  match tags with
  | [] => inr []
  | tag :: rest =>
      let resolved := resolveTag v tag in
      if String.eqb resolved "" then resolve_tags v rest
      else match validateTag resolved with
           | Some err => inl ("invalid tag '" ++ resolved ++ "': " ++ err)
           | None =>
               match resolve_tags v rest with
               | inl e => inl e
               | inr l => inr (resolved :: l)
               end
           end
  end.

(** One element of [imageNames]. *)
Definition imageRef (cfg : Config) (tag : string) : string :=
  let imageName :=
    if negb (String.eqb (Registry cfg) "") && negb (String.eqb (Registry cfg) "docker.io")
    then Registry cfg ++ "/" ++ Image cfg
    else Image cfg in
  imageName ++ ":" ++ tag.

(** ** The validation prefix of [buildAndPush] (lines 227-325) *)

Fixpoint check_build_args (kvs : list (string * string)) : option string :=
  match kvs with
  | [] => None
  | (key, _) :: rest =>
      match validateBuildArgKey key with
      | Some err => Some ("invalid build arg key '" ++ key ++ "': " ++ err)
      | None => check_build_args rest
      end
  end.

Fixpoint check_labels (kvs : list (string * string)) : option string :=
  match kvs with
  | [] => None
  | (key, _) :: rest =>
      match validateLabelKey key with
      | Some err => Some ("invalid label key '" ++ key ++ "': " ++ err)
      | None => check_labels rest
      end
  end.

(** Either the failure response returned early, or
    [(resolvedTags, imageNames)]. *)
Definition validate_and_resolve (cfg : Config) (rc : ReleaseContext)
  : ExecuteResponse + (list string * list string) :=
  match validateImageName (Image cfg) with
  | Some err => inl (failure ("invalid image configuration: " ++ err))
  | None =>
  match validateRegistry (Registry cfg) with
  | Some err => inl (failure ("invalid registry configuration: " ++ err))
  | None =>
  match validatePath (Dockerfile cfg) with
  | Some err => inl (failure ("invalid dockerfile path: " ++ err))
  | None =>
  match validatePath (Context cfg) with
  | Some err => inl (failure ("invalid build context path: " ++ err))
  | None =>
  match check_build_args (BuildArgs cfg) with
  | Some msg => inl (failure msg)
  | None =>
  match check_labels (Labels cfg) with
  | Some msg => inl (failure msg)
  | None =>
  match resolve_tags (Version rc) (effective_tags cfg) with
  | inl msg => inl (failure msg)
  | inr resolvedTags => inr (resolvedTags, map (imageRef cfg) resolvedTags)
  end end end end end end end.

(** ** External commands *)

(** One [CommandExecutor.Run(ctx, name, args, stdin)] call. *)
Record Call := {
  cmd : string;
  args : list string;
  stdin : option string
}.

(** A [CommandExecutor]: the error it returns for a call ([None] is nil),
    which may depend on the calls made before it (as a recording mock's
    does). *)
Definition Executor := list Call -> Call -> option string.

(** Computations that issue commands: the state is the list of calls made
    so far, in order. *)
Definition M (A : Type) := list Call -> A * list Call.
Definition ret {A} (a : A) : M A := fun tr => (a, tr).
Definition bind {A B} (m : M A) (k : A -> M B) : M B :=
  fun tr => let '(a, tr') := m tr in k a tr'.
Notation "x <- m ;; k" := (bind m (fun x => k)) (at level 61, m at next level, right associativity).

Definition Run (exec : Executor) (c : Call) : M (option string) :=
  fun tr => (exec tr c, app tr [c]).

Definition login_call (cfg : Config) : Call :=
  let registry :=
    if String.eqb (Registry cfg) "" || String.eqb (Registry cfg) "docker.io" then ""
    else Registry cfg in
  let a := ["login"] in
  let a := if negb (String.eqb registry "") then app a [registry] else a in
  let a := app a ["-u"; Username cfg; "--password-stdin"] in
  {| cmd := "docker"; args := a; stdin := Some (Password cfg) |}.

Definition kv_args (flag : string) (kvs : list (string * string)) : list string :=
  flat_map (fun '(k, v) => [flag; k ++ "=" ++ v]) kvs.

Definition build_call (cfg : Config) (imageNames : list string) (rc : ReleaseContext) : Call :=
  let a := ["build"] in
  let a := app a (flat_map (fun name => ["-t"; name]) imageNames) in
  let dockerfile := if String.eqb (Dockerfile cfg) "" then "Dockerfile" else Dockerfile cfg in
  let a := app a ["-f"; dockerfile] in
  let a := app a (kv_args "--build-arg" (BuildArgs cfg)) in
  let a := app a ["--build-arg"; "VERSION=" ++ Version rc] in
  let a := match Platforms cfg with
           | [] => a
           | ps => app a ["--platform"; Join ps ","]
           end in
  let a := app a (kv_args "--label" (Labels cfg)) in
  let a := app a (flat_map (fun cache => ["--cache-from"; cache]) (CacheFrom cfg)) in
  let a := if NoCache cfg then app a ["--no-cache"] else a in
  let a := if negb (String.eqb (Target cfg) "") then app a ["--target"; Target cfg] else a in
  let buildContext := if String.eqb (Context cfg) "" then "." else Context cfg in
  let a := app a [buildContext] in
  {| cmd := "docker"; args := a; stdin := None |}.

Definition push_call (imageName : string) : Call :=
  {| cmd := "docker"; args := ["push"; imageName]; stdin := None |}.

Section Plugin.
Variable exec : Executor.

Definition dockerLogin (cfg : Config) : M (option string) := Run exec (login_call cfg).
Definition dockerBuild (cfg : Config) (imageNames : list string) (rc : ReleaseContext)
  : M (option string) := Run exec (build_call cfg imageNames rc).
Definition dockerPush (imageName : string) : M (option string) := Run exec (push_call imageName).

(** The push loop: [Some resp] is the early failure return. *)
Fixpoint push_all (imageNames : list string) : M (option ExecuteResponse) :=
  match imageNames with
  | [] => ret None
  | imageName :: rest =>
      e <- dockerPush imageName ;;
      match e with
      | Some err => ret (Some (failure ("failed to push image " ++ imageName ++ ": " ++ err)))
      | None => push_all rest
      end
  end.

(** [buildAndPush]: the response and Go's [error] result. *)
Definition buildAndPush (cfg : Config) (rc : ReleaseContext) (dryRun : bool)
  : M (ExecuteResponse * option string) :=
  match validate_and_resolve cfg rc with
  | inl resp => ret (resp, None)
  | inr (resolvedTags, imageNames) =>
      if dryRun then
        ret ({| Success := true;
                Message := "Would build and push Docker image";
                Error := "";
                Outputs := [("image", AString (Image cfg));
                            ("tags", AStrings resolvedTags);
                            ("registry", AString (Registry cfg))] |}, None)
      else
        let after_login :=
          e <- dockerBuild cfg imageNames rc ;;
          match e with
          | Some err => ret (failure ("failed to build image: " ++ err), None)
          | None =>
              r <- (if Push cfg then push_all imageNames else ret None) ;;
              match r with
              | Some resp => ret (resp, None)
              | None =>
                  ret ({| Success := true;
                          Message := "Built and pushed Docker image with "
                                     ++ itoa (List.length resolvedTags) ++ " tags";
                          Error := "";
                          Outputs := [("image", AString (Image cfg));
                                      ("tags", AStrings resolvedTags);
                                      ("pushed", ABool (Push cfg))] |}, None)
              end
          end in
        if negb (String.eqb (Username cfg) "") && negb (String.eqb (Password cfg) "") then
          e <- dockerLogin cfg ;;
          match e with
          | Some err => ret (failure ("failed to login to registry: " ++ err), None)
          | None => after_login
          end
        else after_login
  end.

(** [plugin.ExecuteRequest]; its raw configuration map is turned into a
    [Config] by [parseConfig] (the SDK's config helpers) before dispatch,
    so the request carries the parsed [Config]. *)
Record ExecuteRequest := {
  Hook : string;
  ReqConfig : Config;
  ReqContext : ReleaseContext;
  DryRun : bool
}.

Definition HookPostPublish : string := "post-publish".

Definition Execute (req : ExecuteRequest) : M (ExecuteResponse * option string) :=
  if String.eqb (Hook req) HookPostPublish then
    buildAndPush (ReqConfig req) (ReqContext req) (DryRun req)
  else
    ret ({| Success := true; Message := "Hook " ++ Hook req ++ " not handled";
            Error := ""; Outputs := [] |}, None).

End Plugin.

(** The configuration [parseConfig] yields for [{image: "myorg/myapp", push: true}]
    with no credentials in the environment (the defaults of lines 451-464). *)
Definition cfg_myapp : Config := {|
  Registry := "docker.io"; Image := "myorg/myapp"; Tags := [];
  Dockerfile := "Dockerfile"; Context := "."; BuildArgs := []; Platforms := [];
  Username := ""; Password := ""; Push := true; Labels := []; CacheFrom := [];
  NoCache := false; Target := "" |}.

(** An executor whose every command succeeds. *)
Definition exec_ok : Executor := fun _ _ => None.

(** [cfg] with another registry, and with another password. *)
Definition with_registry (cfg : Config) (r : string) : Config := {|
  Registry := r; Image := Image cfg; Tags := Tags cfg; Dockerfile := Dockerfile cfg;
  Context := Context cfg; BuildArgs := BuildArgs cfg; Platforms := Platforms cfg;
  Username := Username cfg; Password := Password cfg; Push := Push cfg;
  Labels := Labels cfg; CacheFrom := CacheFrom cfg; NoCache := NoCache cfg;
  Target := Target cfg |}.

Definition with_password (cfg : Config) (p : string) : Config := {|
  Registry := Registry cfg; Image := Image cfg; Tags := Tags cfg; Dockerfile := Dockerfile cfg;
  Context := Context cfg; BuildArgs := BuildArgs cfg; Platforms := Platforms cfg;
  Username := Username cfg; Password := p; Push := Push cfg;
  Labels := Labels cfg; CacheFrom := CacheFrom cfg; NoCache := NoCache cfg;
  Target := Target cfg |}.

(** A string without the byte [sep]. *)
Definition no_sep (sep : ascii) (s : string) : bool :=
  str_forallb (fun a => negb (char_eqb a sep)) s.

(** ** Reference definitions following the spec's words *)

(** The first failure of a sequence of checks. *)
Fixpoint first_failure (checks : list (option string)) : option string :=
  match checks with
  | [] => None
  | Some e :: _ => Some e
  | None :: rest => first_failure rest
  end.

Definition nonempty (s : string) : bool := negb (String.eqb s "").

Definition build_arg_check (kv : string * string) : option string :=
  let '(key, _) := kv in
  option_map (fun err => "invalid build arg key '" ++ key ++ "': " ++ err) (validateBuildArgKey key).

Definition label_check (kv : string * string) : option string :=
  let '(key, _) := kv in
  option_map (fun err => "invalid label key '" ++ key ++ "': " ++ err) (validateLabelKey key).

Definition tag_check (resolved : string) : option string :=
  option_map (fun err => "invalid tag '" ++ resolved ++ "': " ++ err) (validateTag resolved).

(** The checks of the spec, in its fixed order: image name, registry,
    dockerfile path, context path, build-arg keys, label keys, then each
    non-empty resolved tag; each with the message the orchestrator reports. *)
Definition validation_checks (cfg : Config) (rc : ReleaseContext) : list (option string) :=
  [option_map (append "invalid image configuration: ") (validateImageName (Image cfg));
   option_map (append "invalid registry configuration: ") (validateRegistry (Registry cfg));
   option_map (append "invalid dockerfile path: ") (validatePath (Dockerfile cfg));
   option_map (append "invalid build context path: ") (validatePath (Context cfg))]
  ++ map build_arg_check (BuildArgs cfg)
  ++ map label_check (Labels cfg)
  ++ map tag_check (filter nonempty (map (resolveTag (Version rc)) (effective_tags cfg))).


(** The steps of the orchestrator and the sequence the spec prescribes:
    login (when both credentials are present), build, then one push per
    image reference (when the push flag is set). *)
Inductive Step :=
| SLogin
| SBuild
| SPush (imageName : string).

Definition step_call (cfg : Config) (imageNames : list string) (rc : ReleaseContext)
  (s : Step) : Call :=
  match s with
  | SLogin => login_call cfg
  | SBuild => build_call cfg imageNames rc
  | SPush n => push_call n
  end.

Definition step_failure (s : Step) (err : string) : string :=
  match s with
  | SLogin => "failed to login to registry: " ++ err
  | SBuild => "failed to build image: " ++ err
  | SPush n => "failed to push image " ++ n ++ ": " ++ err
  end.

Definition planned_steps (cfg : Config) (imageNames : list string) : list Step :=
  (if negb (String.eqb (Username cfg) "") && negb (String.eqb (Password cfg) "")
   then [SLogin] else [])
  ++ [SBuild]
  ++ (if Push cfg then map SPush imageNames else []).

(** Run steps in order, stopping after the first that fails. *)
Fixpoint run_steps (exec : Executor) (cfg : Config) (imageNames : list string)
  (rc : ReleaseContext) (steps : list Step) : M (option (Step * string)) :=
  match steps with
  | [] => ret None
  | s :: rest =>
      e <- Run exec (step_call cfg imageNames rc s) ;;
      match e with
      | Some err => ret (Some (s, err))
      | None => run_steps exec cfg imageNames rc rest
      end
  end.

(** The beginnings of the error messages, each naming a field or a step. *)
Definition error_prefixes : list string :=
  ["invalid image configuration: "; "invalid registry configuration: ";
   "invalid dockerfile path: "; "invalid build context path: ";
   "invalid build arg key '"; "invalid label key '"; "invalid tag '";
   "failed to login to registry: "; "failed to build image: "; "failed to push image "].

(** A configuration with credentials, and an executor whose login fails. *)
Definition cfg_login : Config := {|
  Registry := "ghcr.io"; Image := "myorg/myapp"; Tags := [];
  Dockerfile := "Dockerfile"; Context := "."; BuildArgs := []; Platforms := [];
  Username := "ci"; Password := "secret"; Push := true; Labels := []; CacheFrom := [];
  NoCache := false; Target := "" |}.

Definition exec_login_denied : Executor :=
  fun _ c => match args c with
             | "login" :: _ => Some "unauthorized"
             | _ => None
             end.


(** The four placeholder types of the tag templates. *)
Inductive Placeholder := PVersion | PMajor | PMinor | PPatch.

Definition ph_eqb (p q : Placeholder) : bool :=
  match p, q with
  | PVersion, PVersion | PMajor, PMajor | PMinor, PMinor | PPatch, PPatch => true
  | _, _ => false
  end.

(** The text after the two opening braces. *)
Definition ph_body (p : Placeholder) : string :=
  match p with
  | PVersion => "version}}"
  | PMajor => "major}}"
  | PMinor => "minor}}"
  | PPatch => "patch}}"
  end.

Definition ph_text (p : Placeholder) : string := String "{" (String "{" (ph_body p)).

Definition ph_value (v : string) (p : Placeholder) : string :=
  let '(version, major, minor, patch) := version_parts v in
  match p with
  | PVersion => version
  | PMajor => major
  | PMinor => minor
  | PPatch => patch
  end.

(** One substitution pass, and passes in a given order. *)
Definition subst_pass (v : string) (s : string) (p : Placeholder) : string :=
  ReplaceAll s (ph_text p) (ph_value v p).

Definition subst_in_order (v : string) (order : list Placeholder) (s : string) : string :=
  fold_left (subst_pass v) order s.

(** Templates made of literal text and placeholders. *)
Inductive Token := TLit (s : string) | TPh (p : Placeholder).

Definition token_text (t : Token) : string :=
  match t with TLit s => s | TPh p => ph_text p end.

Fixpoint render (toks : list Token) : string :=
  match toks with
  | [] => ""
  | t :: ts => token_text t ++ render ts
  end.

(** A literal without ['{']. *)
Definition token_ok (t : Token) : bool :=
  match t with TLit s => no_sep "{"%char s | TPh _ => true end.

(** Every placeholder replaced by its value, all at once. *)
Fixpoint expand (v : string) (toks : list Token) : string :=
  match toks with
  | [] => ""
  | TLit s :: ts => s ++ expand v ts
  | TPh p :: ts => ph_value v p ++ expand v ts
  end.


(** A pass on one token, and the value a token stands for. *)
Definition subst_tok (p : Placeholder) (r : string) (t : Token) : Token :=
  match t with
  | TPh q => if ph_eqb p q then TLit r else t
  | TLit _ => t
  end.

Definition tok_value (v : string) (t : Token) : string :=
  match t with TLit s => s | TPh p => ph_value v p end.

(** ** Raw configuration values and [parseConfig] (lines 443-476) *)

Set Warnings "-register-all".

(** A decoded configuration value ([any] inside [map[string]any]).  JSON
    numbers are [float64] in Go; only their type matters here. *)
Inductive Value :=
| VString (s : string)
| VBool (b : bool)
| VNumber (n : nat)
| VList (l : list Value)
| VMap (m : list (string * Value))
| VNull.

(** [m[k]] on a Go map held as an association list with distinct keys. *)
Fixpoint lookup {A} (k : string) (m : list (string * A)) : option A :=
  match m with
  | [] => None
  | (k', v) :: m' => if String.eqb k k' then Some v else lookup k m'
  end.

(** [m[k] = v]: overwrite the binding of [k], or add one. *)
Fixpoint map_insert {A} (k : string) (v : A) (m : list (string * A)) : list (string * A) :=
  match m with
  | [] => [(k, v)]
  | (k', v') :: m' =>
      if String.eqb k k' then (k, v) :: m' else (k', v') :: map_insert k v m'
  end.

(** [getStringMap(raw, key)]: the [for k, val := range m] loop visits the
    bindings of [m] in list order. *)
Definition getStringMap (raw : list (string * Value)) (key : string) : list (string * string) :=
  match lookup key raw with
  | Some (VMap m) =>
      fold_left (fun result kv =>
                   match snd kv with
                   | VString s => map_insert (fst kv) s result
                   | _ => result
                   end) m []
  | _ => []
  end.

(** The results of the SDK's [helpers.ConfigParser] calls of [parseConfig]
    (the parser reads the raw map and the environment; it is not part of
    this repository).  [Validate] makes the same calls for the image,
    registry, dockerfile, context and tags, with the same keys and defaults,
    and so sees the same values. *)
Record Parsed := {
  GRegistry : string;    (* GetString("registry", "", "docker.io") *)
  GImage : string;       (* GetString("image", "", "") *)
  GTags : list string;   (* GetStringSlice("tags", nil) *)
  GDockerfile : string;  (* GetString("dockerfile", "", "Dockerfile") *)
  GContext : string;     (* GetString("context", "", ".") *)
  GPlatforms : list string;
  GUsername : string;
  GPassword : string;
  GPush : bool;
  GCacheFrom : list string;
  GNoCache : bool;
  GTarget : string
}.

Definition parseConfig (raw : list (string * Value)) (P : Parsed) : Config := {|
  Registry := GRegistry P;
  Image := GImage P;
  Tags := GTags P;
  Dockerfile := GDockerfile P;
  Context := GContext P;
  BuildArgs := getStringMap raw "build_args";
  Platforms := GPlatforms P;
  Username := GUsername P;
  Password := GPassword P;
  Push := GPush P;
  Labels := getStringMap raw "labels";
  CacheFrom := GCacheFrom P;
  NoCache := GNoCache P;
  Target := GTarget P |}.

(** [Validate] (lines 479-540): the [(field, message)] pairs passed to
    [vb.AddError], in order; the SDK's [vb.Build()] reports them. *)
Definition field_error (field : string) (e : option string) : list (string * string) :=
  match e with
  | Some err => [(field, err)]
  | None => []
  end.

Definition key_errors (field : string) (check : string -> option string)
  (m : option Value) : list (string * string) :=
  match m with
  | Some (VMap kvs) =>
      flat_map (fun kv =>
                  match check (fst kv) with
                  | Some err => [(field, "invalid key '" ++ fst kv ++ "': " ++ err)]
                  | None => []
                  end) kvs
  | _ => []
  end.

Definition Validate (config : list (string * Value)) (P : Parsed) : list (string * string) :=
  let image := GImage P in
  (if String.eqb image "" then [("image", "Docker image name is required")]
   else field_error "image" (validateImageName image))
  ++ field_error "registry" (validateRegistry (GRegistry P))
  ++ field_error "dockerfile" (validatePath (GDockerfile P))
  ++ field_error "context" (validatePath (GContext P))
  ++ key_errors "build_args" validateBuildArgKey (lookup "build_args" config)
  ++ key_errors "labels" validateLabelKey (lookup "labels" config)
  ++ flat_map (fun tag =>
                 if Contains tag "{{" then []
                 else match validateTag tag with
                      | Some err => [("tags", "invalid tag '" ++ tag ++ "': " ++ err)]
                      | None => []
                      end) (GTags P).

(** No two adjacent ['.'] bytes in a list of bytes. *)
Fixpoint no_dd (l : list ascii) : bool :=
  match l with
  | x :: ((y :: _) as l') => negb (char_eqb x "."%char && char_eqb y "."%char) && no_dd l'
  | _ => true
  end.

(** The first byte of a string is ['.']. *)
Definition starts_dot (s : string) : bool :=
  match s with
  | String c _ => char_eqb c "."%char
  | EmptyString => false
  end.

(** The condition under which [imageRef] puts the registry in front. *)
Definition registry_prefixed (cfg : Config) : bool :=
  negb (String.eqb (Registry cfg) "") && negb (String.eqb (Registry cfg) "docker.io").

(** Auxiliary notions used in the invariants of [Clean] and [getStringMap],
    and sample inputs. *)

Definition string_entry (result : list (string * string)) (kv : string * Value) :=
  match snd kv with
  | VString s => map_insert (fst kv) s result
  | _ => result
  end.

Definition ends_slash (out : list ascii) : Prop := exists o, out = app o ["/"%char].

Definition nr_ok (out : list ascii) : Prop :=
  out = [] \/ exists o b, out = app o [b] /\ b <> "/"%char.

Definition head_dot (o : list ascii) : bool :=
  match o with
  | x :: _ => char_eqb x "."%char
  | [] => false
  end.

Definition req_no_push : ExecuteRequest := {|
  Hook := HookPostPublish;
  ReqConfig := {| Registry := "docker.io"; Image := "myorg/myapp"; Tags := [];
                  Dockerfile := "Dockerfile"; Context := "."; BuildArgs := []; Platforms := [];
                  Username := ""; Password := ""; Push := false; Labels := []; CacheFrom := [];
                  NoCache := false; Target := "" |};
  ReqContext := {| Version := "v1.2.3" |};
  DryRun := false |}.

Definition raw_example : list (string * Value) :=
  [("image", VString "myorg/myapp");
   ("build_args", VMap [("GO_VERSION", VString "1.22"); ("DEBUG", VBool true)])].

Definition parsed_template : Parsed := {|
  GRegistry := "docker.io"; GImage := "myorg/myapp"; GTags := ["{{version}}"];
  GDockerfile := "Dockerfile"; GContext := "."; GPlatforms := []; GUsername := "";
  GPassword := ""; GPush := true; GCacheFrom := []; GNoCache := false; GTarget := "" |}.

(** * Properties *)

(** ** Lemmas on the string helpers *)

Lemma Split_not_nil : forall s c, Split s c <> [].
Proof.
  induction s as [|a s IH]; intros c; simpl; [discriminate|].
  destruct (char_eqb a c); [discriminate|].
  destruct (Split s c); discriminate.
Qed.

Lemma prefix_cons : forall a b s t,
  String.prefix (String a s) (String b t) =
  if ascii_dec a b then String.prefix s t else false.
Proof. reflexivity. Qed.

Lemma prefix_cons_same : forall a s t,
  String.prefix (String a s) (String a t) = String.prefix s t.
Proof. intros a s t; simpl; destruct (ascii_dec a a); congruence. Qed.

Lemma Split_head_prefix : forall s c x xs,
  Split s c = x :: xs -> String.prefix x s = true.
Proof.
  induction s as [|a s IH]; intros c x xs H; simpl in H.
  - inversion H; subst; reflexivity.
  - destruct (char_eqb a c).
    + inversion H; subst; reflexivity.
    + destruct (Split s c) as [|y ys] eqn:E.
      * exfalso; exact (Split_not_nil s c E).
      * injection H as <- <-. rewrite prefix_cons_same.
        exact (IH c y ys E).
Qed.

Lemma Contains_prefix : forall s sub, String.prefix sub s = true -> Contains s sub = true.
Proof.
  intros s sub H.
  assert (E : Contains s sub = String.prefix sub s ||
              match s with EmptyString => false | String _ s' => Contains s' sub end)
    by (destruct s; reflexivity).
  rewrite E, H; reflexivity.
Qed.

Lemma Contains_cons : forall a s sub, Contains s sub = true -> Contains (String a s) sub = true.
Proof.
  intros a s sub H.
  change (String.prefix sub (String a s) || Contains s sub = true).
  rewrite H; apply orb_true_r.
Qed.

Lemma Split_tail_contains : forall s c x,
  In x (tl (Split s c)) -> Contains s (String c x) = true.
Proof.
  induction s as [|a s IH]; intros c x Hin; simpl in Hin.
  - destruct Hin.
  - destruct (char_eqb a c) eqn:Ea.
    + apply Ascii.eqb_eq in Ea; subst a.
      destruct (Split s c) as [|y ys] eqn:E.
      * destruct Hin.
      * destruct Hin as [Hh|Ht].
        -- subst y. apply Split_head_prefix in E.
           apply Contains_prefix. rewrite prefix_cons_same. exact E.
        -- apply Contains_cons. apply IH. rewrite E. exact Ht.
    + apply Contains_cons. apply IH.
      destruct (Split s c) as [|y ys]; exact Hin.
Qed.

(** A [".."] segment is caught by the two string tests of [validatePath]. *)
Lemma dotdot_segment_caught : forall s,
  In ".." (segments s) -> HasPrefix s ".." = true \/ Contains s "/.." = true.
Proof.
  unfold segments, HasPrefix. intros s Hin.
  destruct (Split s "/"%char) as [|y ys] eqn:E.
  - destruct Hin.
  - destruct Hin as [Hh|Ht].
    + left. subst y. exact (Split_head_prefix _ _ _ _ E).
    + right. apply (Split_tail_contains s "/"%char). rewrite E. exact Ht.
Qed.

(** ** validatePath *)

(** Claim C1 (counterexample): ["a/..b"] is relative, is its own normal
    form, has no [".."] segment and does not start with [".."], yet
    [validatePath] rejects it, because the code tests the substring
    ["/.."] rather than a [".."] segment. *)
Lemma C1_validatePath_rejects_a_dotdotb :
  Clean "a/..b" = "a/..b" /\ IsAbs (Clean "a/..b") = false /\
  HasPrefix (Clean "a/..b") ".." = false /\
  ~ In ".." (segments (Clean "a/..b")) /\
  validatePath "a/..b" =
    Some "path traversal detected: cannot use '..' to escape working directory".
Proof.
  repeat split; try reflexivity.
  vm_compute. intros [H|[H|[]]]; discriminate.
Qed.

(** Claim C1 (amended): [validatePath] accepts the empty path; a non-empty
    path is accepted exactly when its [filepath.Clean] form is not absolute,
    does not begin with the two bytes [".."] and does not contain the
    substring ["/.."]; in particular every path whose clean form has a
    [".."] segment is rejected. *)
Theorem validatePath_characterisation : forall path,
  (path = "" -> validatePath path = None) /\
  (path <> "" ->
     (validatePath path = None <->
      IsAbs (Clean path) = false /\ HasPrefix (Clean path) ".." = false /\
      Contains (Clean path) "/.." = false)) /\
  (path <> "" -> In ".." (segments (Clean path)) -> validatePath path <> None).
Proof.
  intros path. unfold validatePath.
  destruct (String.eqb_spec path "") as [E|NE].
  - repeat split; intros; try reflexivity; try contradiction; tauto.
  - split; [intros; contradiction|]. split.
    + intros _.
      destruct (IsAbs (Clean path)), (HasPrefix (Clean path) ".."),
               (Contains (Clean path) "/.."); simpl;
        split; intros H; try discriminate; try reflexivity;
        try (repeat split; reflexivity);
        destruct H as (H1 & H2 & H3); discriminate.
    + intros _ Hin.
      destruct (IsAbs (Clean path)); [discriminate|].
      destruct (dotdot_segment_caught _ Hin) as [H|H]; rewrite H;
        [|rewrite orb_true_r]; discriminate.
Qed.

(** ** String lemmas *)

Lemma str_app_assoc : forall a b c : string, (a ++ b) ++ c = a ++ (b ++ c).
Proof. induction a as [|x a IH]; intros; simpl; [reflexivity|now rewrite IH]. Qed.

Lemma str_app_nil_r : forall a : string, a ++ "" = a.
Proof. induction a as [|x a IH]; simpl; [reflexivity|now rewrite IH]. Qed.

Lemma substring_0_full : forall s n, String.length s <= n -> substring 0 n s = s.
Proof.
  induction s as [|a s IH]; intros [|n] H; simpl in *; try reflexivity; try lia.
  rewrite IH by lia. reflexivity.
Qed.

Lemma TrimPrefix_v : forall s, TrimPrefix (String "v" s) "v" = s.
Proof.
  intros s. unfold TrimPrefix. rewrite prefix_cons_same.
  replace (String.prefix "" s) with true by (destruct s; reflexivity).
  simpl. apply substring_0_full. lia.
Qed.

Lemma TrimPrefix_not_v : forall s,
  (forall s', s <> String "v" s') -> TrimPrefix s "v" = s.
Proof.
  intros [|a s] H; [reflexivity|]. unfold TrimPrefix. rewrite prefix_cons.
  destruct (ascii_dec "v" a) as [<-|]; [|reflexivity].
  exfalso. exact (H s eq_refl).
Qed.

Lemma Split_app_no_sep : forall c t sep,
  no_sep sep c = true ->
  Split (c ++ t) sep =
    match Split t sep with x :: xs => (c ++ x) :: xs | [] => [c] end.
Proof.
  induction c as [|a c IH]; intros t sep H; simpl.
  - destruct (Split t sep) eqn:E; [exfalso; exact (Split_not_nil _ _ E)|reflexivity].
  - unfold no_sep in H. simpl in H. apply andb_prop in H as [Ha Hc].
    rewrite (IH t sep Hc). apply negb_true_iff in Ha. rewrite Ha.
    destruct (Split t sep) eqn:E; [exfalso; exact (Split_not_nil _ _ E)|reflexivity].
Qed.

Lemma Split_Join : forall comps,
  comps <> [] -> Forall (fun c => no_sep "."%char c = true) comps ->
  Split (Join comps ".") "."%char = comps.
Proof.
  induction comps as [|c cs IH]; intros Hne Hall; [contradiction|].
  inversion Hall as [|? ? Hc Hcs]; subst.
  destruct cs as [|c' cs'].
  - simpl. rewrite <- (str_app_nil_r c) at 1.
    rewrite (Split_app_no_sep c "" _ Hc). simpl. now rewrite str_app_nil_r.
  - change (Join (c :: c' :: cs') ".") with (c ++ "." ++ Join (c' :: cs') ".").
    rewrite (Split_app_no_sep c _ _ Hc).
    change ("." ++ Join (c' :: cs') ".") with (String "." (Join (c' :: cs') ".")).
    cbn [Split]. rewrite (IH ltac:(discriminate) Hcs). simpl. now rewrite str_app_nil_r.
Qed.

(** ** The validation prefix *)

Lemma first_failure_app : forall l1 l2,
  first_failure (l1 ++ l2) =
  match first_failure l1 with Some e => Some e | None => first_failure l2 end.
Proof.
  induction l1 as [|[e|] l1 IH]; intros l2; simpl; [reflexivity|reflexivity|apply IH].
Qed.

Lemma check_build_args_first : forall kvs,
  check_build_args kvs = first_failure (map build_arg_check kvs).
Proof.
  induction kvs as [|[k v] kvs IH]; simpl; [reflexivity|].
  destruct (validateBuildArgKey k); simpl; [reflexivity|exact IH].
Qed.

Lemma check_labels_first : forall kvs,
  check_labels kvs = first_failure (map label_check kvs).
Proof.
  induction kvs as [|[k v] kvs IH]; simpl; [reflexivity|].
  destruct (validateLabelKey k); simpl; [reflexivity|exact IH].
Qed.

Lemma resolve_tags_first : forall v ts,
  match first_failure (map tag_check (filter nonempty (map (resolveTag v) ts))) with
  | Some e => resolve_tags v ts = inl e
  | None => resolve_tags v ts = inr (filter nonempty (map (resolveTag v) ts))
  end.
Proof.
  intros v. induction ts as [|t ts IH]; [reflexivity|].
  cbn [map filter resolve_tags].
  change (nonempty (resolveTag v t)) with (negb (String.eqb (resolveTag v t) "")).
  destruct (String.eqb (resolveTag v t) "") eqn:E; cbn [negb]; [exact IH|].
  cbn [map first_failure]. unfold tag_check at 1.
  destruct (validateTag (resolveTag v t)); cbn [option_map first_failure]; [reflexivity|].
  destruct (first_failure _); rewrite IH; reflexivity.
Qed.

Lemma validate_and_resolve_first : forall cfg rc,
  match first_failure (validation_checks cfg rc) with
  | Some e => validate_and_resolve cfg rc = inl (failure e)
  | None =>
      let rt := filter nonempty (map (resolveTag (Version rc)) (effective_tags cfg)) in
      resolve_tags (Version rc) (effective_tags cfg) = inr rt /\
      validate_and_resolve cfg rc = inr (rt, map (imageRef cfg) rt)
  end.
Proof.
  intros cfg rc. unfold validation_checks, validate_and_resolve.
  destruct (validateImageName (Image cfg)); [reflexivity|].
  destruct (validateRegistry (Registry cfg)); [reflexivity|].
  destruct (validatePath (Dockerfile cfg)); [reflexivity|].
  destruct (validatePath (Context cfg)); [reflexivity|].
  cbn [option_map app first_failure].
  rewrite first_failure_app, <- check_build_args_first.
  destruct (check_build_args (BuildArgs cfg)); [reflexivity|].
  rewrite first_failure_app, <- check_labels_first.
  destruct (check_labels (Labels cfg)); [reflexivity|].
  pose proof (resolve_tags_first (Version rc) (effective_tags cfg)) as H.
  destruct (first_failure _); rewrite H; [reflexivity|].
  split; reflexivity.
Qed.

Lemma validate_and_resolve_inr : forall cfg rc rt names,
  validate_and_resolve cfg rc = inr (rt, names) ->
  first_failure (validation_checks cfg rc) = None /\ names = map (imageRef cfg) rt /\
  rt = filter nonempty (map (resolveTag (Version rc)) (effective_tags cfg)).
Proof.
  intros cfg rc rt names E.
  pose proof (validate_and_resolve_first cfg rc) as H.
  destruct (first_failure _); [congruence|].
  destruct H as [_ H]. rewrite E in H. injection H as -> ->. auto.
Qed.

(** ** Claim C3: version components *)

(** Claim C3: the version is stripped of exactly one optional leading ['v'];
    whenever the stripped version is the ['.']-join of dot-free components
    [comps], major, minor and patch are the first, second and third of them,
    [""] when absent; ["v1.2"] gives major ["1"], minor ["2"], patch [""]. *)
Theorem version_parts_components :
  (forall s, TrimPrefix (String "v" s) "v" = s) /\
  (forall s, (forall s', s <> String "v" s') -> TrimPrefix s "v" = s) /\
  (forall v comps,
     comps <> [] -> Forall (fun c => no_sep "."%char c = true) comps ->
     Join comps "." = TrimPrefix v "v" ->
     version_parts v = (TrimPrefix v "v", nth 0 comps "", nth 1 comps "", nth 2 comps "")) /\
  version_parts "v1.2" = ("1.2", "1", "2", "").
Proof.
  split; [exact TrimPrefix_v|]. split; [exact TrimPrefix_not_v|]. split.
  - intros v comps Hne Hall HJ. unfold version_parts.
    rewrite <- HJ, (Split_Join comps Hne Hall). reflexivity.
  - reflexivity.
Qed.

(** A concrete instance of the decomposition part of [version_parts_components]. *)
Lemma version_parts_components_witness :
  version_parts "v10.20.30" = ("10.20.30", "10", "20", "30").
Proof.
  destruct version_parts_components as (_ & _ & H & _).
  apply (H "v10.20.30" ["10"; "20"; "30"]).
  - discriminate.
  - repeat constructor.
  - reflexivity.
Defined.

(** ** Claim C7: image references *)

(** Claim C7: each image reference is the image name, prefixed by
    ["<registry>/"] exactly when the registry is neither empty nor
    ["docker.io"], a colon and the tag; the image names built are these
    references of the resolved tags, in order. *)
Theorem imageRef_registry_prefix :
  (forall cfg tag,
     imageRef cfg tag =
       (if negb (String.eqb (Registry cfg) "") && negb (String.eqb (Registry cfg) "docker.io")
        then Registry cfg ++ "/" else "") ++ Image cfg ++ ":" ++ tag) /\
  (forall cfg rc,
     match validate_and_resolve cfg rc with
     | inr (resolvedTags, imageNames) => imageNames = map (imageRef cfg) resolvedTags
     | inl _ => True
     end) /\
  (forall tag,
     imageRef (with_registry cfg_myapp "docker.io") tag = "myorg/myapp:" ++ tag /\
     imageRef (with_registry cfg_myapp "") tag = "myorg/myapp:" ++ tag /\
     imageRef (with_registry cfg_myapp "ghcr.io") tag = "ghcr.io/myorg/myapp:" ++ tag).
Proof.
  split; [|split].
  - intros cfg tag. unfold imageRef.
    destruct (negb _ && negb _); [now rewrite !str_app_assoc|reflexivity].
  - intros cfg rc.
    destruct (validate_and_resolve cfg rc) as [|[rt names]] eqn:E; [exact I|].
    exact (proj1 (proj2 (validate_and_resolve_inr _ _ _ _ E))).
  - intros tag. repeat split.
Qed.

(** ** Claim C8: the login command *)

(** Claim C8: [docker login] gets the arguments ["login"], the registry
    when it is neither empty nor ["docker.io"], ["-u"], the username and
    ["--password-stdin"]; the password is its standard input, the argument
    list does not depend on the password, and the password string occurs in
    it only when it coincides with one of those other arguments. *)
Theorem login_call_shape : forall cfg,
  login_call cfg =
    {| cmd := "docker";
       args := ["login"] ++
               (if String.eqb (Registry cfg) "" || String.eqb (Registry cfg) "docker.io"
                then [] else [Registry cfg]) ++
               ["-u"; Username cfg; "--password-stdin"];
       stdin := Some (Password cfg) |} /\
  (forall p, args (login_call (with_password cfg p)) = args (login_call cfg)) /\
  (In (Password cfg) (args (login_call cfg)) ->
   Password cfg = "login" \/ Password cfg = Registry cfg \/ Password cfg = "-u" \/
   Password cfg = Username cfg \/ Password cfg = "--password-stdin").
Proof.
  intros cfg.
  assert (Hshape : login_call cfg =
    {| cmd := "docker";
       args := ["login"] ++
               (if String.eqb (Registry cfg) "" || String.eqb (Registry cfg) "docker.io"
                then [] else [Registry cfg]) ++
               ["-u"; Username cfg; "--password-stdin"];
       stdin := Some (Password cfg) |}).
  { unfold login_call.
    destruct (String.eqb (Registry cfg) "") eqn:E1; simpl; [reflexivity|].
    destruct (String.eqb (Registry cfg) "docker.io"); simpl; [reflexivity|].
    rewrite E1. reflexivity. }
  split; [exact Hshape|]. split; [intros p; reflexivity|].
  rewrite Hshape. cbn [args]. intros Hin.
  destruct (_ || _); cbn [app In] in Hin; intuition congruence.
Qed.

(** ** The command sequence *)

Lemma run_steps_app : forall exec cfg names rc l1 l2 tr,
  run_steps exec cfg names rc (l1 ++ l2) tr =
  let '(o, tr1) := run_steps exec cfg names rc l1 tr in
  match o with
  | Some x => (Some x, tr1)
  | None => run_steps exec cfg names rc l2 tr1
  end.
Proof.
  intros exec cfg names rc l1 l2. induction l1 as [|s l1 IH]; intros tr; [reflexivity|].
  simpl. unfold bind, Run. destruct (exec tr (step_call cfg names rc s)); [reflexivity|].
  apply IH.
Qed.

Lemma push_all_steps : forall exec cfg names0 rc names tr,
  push_all exec names tr =
  let '(o, tr') := run_steps exec cfg names0 rc (map SPush names) tr in
  (match o with Some (s, err) => Some (failure (step_failure s err)) | None => None end, tr').
Proof.
  intros exec cfg names0 rc. induction names as [|n names IH]; intros tr; [reflexivity|].
  simpl. unfold bind, dockerPush, Run. simpl.
  destruct (exec tr (push_call n)); [reflexivity|]. apply IH.
Qed.

Lemma bind_Run : forall {B} exec c (k : option string -> M B) tr,
  bind (Run exec c) k tr = k (exec tr c) (tr ++ [c])%list.
Proof. reflexivity. Qed.
Lemma ret_apply : forall {A} (a : A) tr, ret a tr = (a, tr).
Proof. reflexivity. Qed.
Lemma run_steps_cons : forall exec cfg names rc s rest tr,
  run_steps exec cfg names rc (s :: rest) tr =
  match exec tr (step_call cfg names rc s) with
  | Some err => (Some (s, err), (tr ++ [step_call cfg names rc s])%list)
  | None => run_steps exec cfg names rc rest (tr ++ [step_call cfg names rc s])%list
  end.
Proof. intros. simpl. unfold bind, Run. destruct (exec tr _); reflexivity. Qed.

(** After validation, a non-dry run issues the planned steps in order and
    stops at the first failure, which its response reports. *)
Lemma buildAndPush_run : forall exec cfg rc tr rt names,
  validate_and_resolve cfg rc = inr (rt, names) ->
  let '(res, tr') := buildAndPush exec cfg rc false tr in
  let '(outcome, tr'') := run_steps exec cfg names rc (planned_steps cfg names) tr in
  tr' = tr'' /\ snd res = None /\
  match outcome with
  | None => Success (fst res) = true
  | Some (s, err) => fst res = failure (step_failure s err)
  end.
Proof.
  intros exec cfg rc tr rt names E.
  unfold buildAndPush. rewrite E. cbv iota zeta.
  unfold planned_steps, dockerLogin, dockerBuild.
  assert (Hb : forall tr0,
    let '(res, tr') :=
      bind (Run exec (build_call cfg names rc)) (fun e =>
       match e with
       | Some err => ret (failure ("failed to build image: " ++ err), None)
       | None =>
           bind (if Push cfg then push_all exec names else ret None) (fun r =>
           match r with
           | Some resp => ret (resp, None)
           | None =>
               ret ({| Success := true;
                       Message := "Built and pushed Docker image with "
                                  ++ itoa (List.length rt) ++ " tags";
                       Error := "";
                       Outputs := [("image", AString (Image cfg));
                                   ("tags", AStrings rt);
                                   ("pushed", ABool (Push cfg))] |}, @None string)
           end)
       end) tr0 in
    let '(outcome, tr'') := run_steps exec cfg names rc
        (SBuild :: (if Push cfg then map SPush names else [])) tr0 in
    tr' = tr'' /\ snd res = None /\
    match outcome with
    | None => Success (fst res) = true
    | Some (s, err) => fst res = failure (step_failure s err)
    end).
  { intros tr0. rewrite bind_Run, run_steps_cons. cbn [step_call].
    destruct (exec tr0 (build_call cfg names rc)) as [err|].
    - rewrite ret_apply. simpl. auto.
    - destruct (Push cfg).
      + unfold bind at 1.
        rewrite (push_all_steps exec cfg names rc names).
        destruct (run_steps exec cfg names rc (map SPush names) _) as [[[s err]|] tr1];
          simpl; auto.
      + simpl. auto. }
  destruct (negb _ && negb _); cbn [app].
  - rewrite bind_Run, run_steps_cons. cbn [step_call].
    destruct (exec tr (login_call cfg)) as [err|].
    + rewrite ret_apply. simpl. auto.
    + apply Hb.
  - apply Hb.
Qed.

(** ** Claim C2: login, build, push *)

(** Claim C2: after validation, a non-dry run issues login (only with both
    credentials), then build, then one push per image reference in order
    (only with the push flag), and stops at the first failing step, whose
    failure the response reports.  For [{image: "myorg/myapp", push: true}]
    and ["v1.2.3"] without credentials there is one build call with both
    tags, then two push calls and no login; when the login of a configuration
    with credentials fails, nothing else runs and the response reports the
    login failure with the executor's error. *)
Theorem buildAndPush_sequence :
  (forall exec cfg rc tr rt names,
     validate_and_resolve cfg rc = inr (rt, names) ->
     let '(res, tr') := buildAndPush exec cfg rc false tr in
     let '(outcome, tr'') := run_steps exec cfg names rc (planned_steps cfg names) tr in
     tr' = tr'' /\ snd res = None /\
     match outcome with
     | None => Success (fst res) = true
     | Some (s, err) => fst res = failure (step_failure s err)
     end) /\
  (let '(res, tr) := buildAndPush exec_ok cfg_myapp {| Version := "v1.2.3" |} false [] in
   Success (fst res) = true /\
   tr = [{| cmd := "docker";
            args := ["build"; "-t"; "myorg/myapp:1.2.3"; "-t"; "myorg/myapp:latest";
                     "-f"; "Dockerfile"; "--build-arg"; "VERSION=v1.2.3"; "."];
            stdin := None |};
         {| cmd := "docker"; args := ["push"; "myorg/myapp:1.2.3"]; stdin := None |};
         {| cmd := "docker"; args := ["push"; "myorg/myapp:latest"]; stdin := None |}]) /\
  (forall exec cfg rc tr rt names err,
     validate_and_resolve cfg rc = inr (rt, names) ->
     Username cfg <> "" -> Password cfg <> "" ->
     exec tr (login_call cfg) = Some err ->
     buildAndPush exec cfg rc false tr =
       ((failure ("failed to login to registry: " ++ err), None), (tr ++ [login_call cfg])%list)).
Proof.
  split; [exact buildAndPush_run|]. split.
  - vm_compute. split; reflexivity.
  - intros exec cfg rc tr rt names err E Hu Hp Hl.
    unfold buildAndPush. rewrite E. cbv iota zeta. unfold dockerLogin.
    apply String.eqb_neq in Hu, Hp. rewrite Hu, Hp. cbn [negb andb].
    rewrite bind_Run, Hl. reflexivity.
Qed.

(** The login-failure part of [buildAndPush_sequence] on a configuration
    with credentials whose login is refused. *)
Lemma buildAndPush_sequence_witness :
  buildAndPush exec_login_denied cfg_login {| Version := "v1.2.3" |} false [] =
    ((failure ("failed to login to registry: " ++ "unauthorized"), None),
     [login_call cfg_login]).
Proof.
  destruct buildAndPush_sequence as (_ & _ & H).
  apply (H exec_login_denied cfg_login {| Version := "v1.2.3" |} []
           ["1.2.3"; "latest"] ["ghcr.io/myorg/myapp:1.2.3"; "ghcr.io/myorg/myapp:latest"]
           "unauthorized").
  - vm_compute. reflexivity.
  - discriminate.
  - discriminate.
  - reflexivity.
Defined.

(** ** Claim C5: validation comes first *)

(** Claim C5: the checks run in the fixed order image name, registry,
    dockerfile path, context path, build-arg keys, label keys, then each
    non-empty resolved tag; the first failing one is the response, and then
    no command at all is issued (the call trace is unchanged), in dry runs
    and real runs alike. *)
Theorem validation_before_commands : forall exec cfg rc dryRun tr,
  match first_failure (validation_checks cfg rc) with
  | Some e => buildAndPush exec cfg rc dryRun tr = ((failure e, None), tr)
  | None => exists rt, validate_and_resolve cfg rc = inr (rt, map (imageRef cfg) rt)
  end.
Proof.
  intros exec cfg rc dryRun tr.
  pose proof (validate_and_resolve_first cfg rc) as H.
  destruct (first_failure (validation_checks cfg rc)) as [e|].
  - unfold buildAndPush. rewrite H. reflexivity.
  - destruct H as [_ H]. eexists. exact H.
Qed.

(** ** Claim C10: dry runs *)

(** Claim C10: a dry run issues no command and its result does not depend
    on the executor; validation still runs first and its first failure is
    the response; otherwise the preview holds the unqualified image name,
    the resolved tags with empty ones dropped, and the registry. *)
Theorem dry_run_no_commands : forall exec cfg rc tr,
  let '(res, tr') := buildAndPush exec cfg rc true tr in
  tr' = tr /\ snd res = None /\
  (forall exec', buildAndPush exec' cfg rc true tr = buildAndPush exec cfg rc true tr) /\
  match first_failure (validation_checks cfg rc) with
  | Some e => fst res = failure e
  | None =>
      Success (fst res) = true /\
      Outputs (fst res) =
        [("image", AString (Image cfg));
         ("tags", AStrings (filter nonempty (map (resolveTag (Version rc)) (effective_tags cfg))));
         ("registry", AString (Registry cfg))]
  end.
Proof.
  intros exec cfg rc tr.
  pose proof (validate_and_resolve_first cfg rc) as H.
  unfold buildAndPush.
  destruct (first_failure (validation_checks cfg rc)) as [e|].
  - rewrite H. simpl. auto.
  - destruct H as [_ H]. rewrite H. simpl. auto.
Qed.

(** ** Claim C6: empty tags are dropped *)

Lemma first_failure_In : forall l e, first_failure l = Some e -> In (Some e) l.
Proof.
  induction l as [|[x|] l IH]; intros e H; simpl in H; try discriminate.
  - injection H as ->. left. reflexivity.
  - right. apply IH. exact H.
Qed.

Lemma In_map_tag_check : forall l e,
  In (Some e) (map tag_check l) ->
  exists r m, In r l /\ validateTag r = Some m /\ e = "invalid tag '" ++ r ++ "': " ++ m.
Proof.
  intros l e H. apply in_map_iff in H as (r & Hr & Hin).
  unfold tag_check in Hr. destruct (validateTag r) as [m|] eqn:Ev; [|discriminate].
  injection Hr as <-. exists r, m. auto.
Qed.

(** Claim C6: a template that resolves to [""] is dropped: the resolved
    tags are the non-empty results, in template order; a tag failure is
    always about a non-empty resolved tag; and the image references (the
    names built and pushed) are made from the resolved tags only. *)
Theorem empty_tags_dropped :
  (forall v ts,
     match resolve_tags v ts with
     | inr rt => rt = filter nonempty (map (resolveTag v) ts)
     | inl e => exists r m, r <> "" /\ In r (map (resolveTag v) ts) /\
                  validateTag r = Some m /\ e = "invalid tag '" ++ r ++ "': " ++ m
     end) /\
  (forall cfg rc,
     match validate_and_resolve cfg rc with
     | inr (rt, names) =>
         rt = filter nonempty (map (resolveTag (Version rc)) (effective_tags cfg)) /\
         names = map (imageRef cfg) rt
     | inl _ => True
     end).
Proof.
  split.
  - intros v ts. pose proof (resolve_tags_first v ts) as H.
    destruct (first_failure _) as [e|] eqn:F; rewrite H; [|reflexivity].
    apply first_failure_In, In_map_tag_check in F as (r & m & Hin & Hv & He).
    apply filter_In in Hin as [Hin Hne].
    exists r, m. repeat split; auto.
    intros ->. discriminate Hne.
  - intros cfg rc.
    destruct (validate_and_resolve cfg rc) as [|[rt names]] eqn:E; [exact I|].
    apply validate_and_resolve_inr in E as (_ & Hn & Hr). auto.
Qed.

(** ** Claim C9: structured results *)

Lemma prefix_app : forall p s, String.prefix p (p ++ s) = true.
Proof.
  induction p as [|a p IH]; intros s; [destruct s; reflexivity|].
  simpl append. rewrite prefix_cons_same. apply IH.
Qed.

Ltac in_error_prefixes :=
  unfold error_prefixes; repeat (first [left; reflexivity | right]).

Lemma validation_checks_prefix : forall cfg rc e,
  In (Some e) (validation_checks cfg rc) ->
  exists p, In p error_prefixes /\ String.prefix p e = true.
Proof.
  intros cfg rc e H. unfold validation_checks in H.
  rewrite !in_app_iff in H.
  destruct H as [H|[H|[H|H]]].
  - cbn [In] in H.
    destruct H as [H|[H|[H|[H|[]]]]];
      match type of H with option_map (append ?p) ?x = Some e =>
        destruct x as [y|]; [|discriminate]; injection H as <-;
        exists p; split; [in_error_prefixes|exact (prefix_app p y)]
      end.
  - apply in_map_iff in H as ([k v] & Hk & _). unfold build_arg_check in Hk.
    destruct (validateBuildArgKey k); [|discriminate]. injection Hk as <-.
    exists "invalid build arg key '"; split;
      [in_error_prefixes|exact (prefix_app "invalid build arg key '" _)].
  - apply in_map_iff in H as ([k v] & Hk & _). unfold label_check in Hk.
    destruct (validateLabelKey k); [|discriminate]. injection Hk as <-.
    exists "invalid label key '"; split;
      [in_error_prefixes|exact (prefix_app "invalid label key '" _)].
  - apply In_map_tag_check in H as (r & m & _ & _ & ->).
    exists "invalid tag '"; split;
      [in_error_prefixes|exact (prefix_app "invalid tag '" _)].
Qed.

Lemma buildAndPush_structured : forall exec cfg rc dryRun tr,
  let '(res, _) := buildAndPush exec cfg rc dryRun tr in
  snd res = None /\
  (Success (fst res) = false ->
   exists p, In p error_prefixes /\ String.prefix p (Error (fst res)) = true).
Proof.
  intros exec cfg rc dryRun tr.
  pose proof (validate_and_resolve_first cfg rc) as H.
  destruct (first_failure (validation_checks cfg rc)) as [e|] eqn:F.
  - unfold buildAndPush. rewrite H. simpl. split; [reflexivity|].
    intros _. apply (validation_checks_prefix cfg rc). apply first_failure_In. exact F.
  - destruct H as [_ H]. destruct dryRun.
    + unfold buildAndPush. rewrite H. simpl. split; [reflexivity|discriminate].
    + pose proof (buildAndPush_run exec cfg rc tr _ _ H) as R.
      destruct (buildAndPush exec cfg rc false tr) as [res tr'].
      destruct (run_steps _ _ _ _ _ _) as [o tr''].
      destruct R as (_ & Hn & Ho). split; [exact Hn|].
      destruct o as [[s err]|].
      * intros _. rewrite Ho.
        destruct s; unfold failure, step_failure; cbn [Error];
          match goal with |- exists p, _ /\ String.prefix p (?q ++ ?r) = true =>
            exists q; split; [in_error_prefixes|exact (prefix_app q r)] end.
      * intros Hs. congruence.
Qed.

(** Claim C9: for every hook, configuration and release context,
    [Execute] returns a nil Go [error]; a failed response carries an error
    message that begins with the name of the failing field or step. *)
Theorem execute_structured_results : forall exec req tr,
  let '(res, _) := Execute exec req tr in
  snd res = None /\
  (Success (fst res) = false ->
   exists p, In p error_prefixes /\ String.prefix p (Error (fst res)) = true).
Proof.
  intros exec req tr. unfold Execute.
  destruct (String.eqb (Hook req) HookPostPublish).
  - apply buildAndPush_structured.
  - simpl. split; [reflexivity|discriminate].
Qed.

(** ** ReplaceAll *)

Lemma skip_length : forall n s, String.length (skip n s) = String.length s - n.
Proof.
  induction n as [|n IH]; intros [|c s]; simpl; try reflexivity.
  - rewrite IH. reflexivity.
Qed.

Lemma skip_app : forall p s, skip (String.length p) (p ++ s) = s.
Proof. induction p as [|c p IH]; intros s; simpl; [reflexivity|apply IH]. Qed.

Lemma replace_fuel_enough : forall old new n m s,
  old <> "" -> String.length s <= n -> String.length s <= m ->
  replace_fuel n old new s = replace_fuel m old new s.
Proof.
  intros old new. induction n as [|n IH]; intros m s Hne Hn Hm.
  - destruct s; simpl in Hn; [|lia]. destruct m; reflexivity.
  - destruct s as [|c s]; [destruct m; reflexivity|].
    destruct m as [|m]; [simpl in Hm; lia|].
    simpl in Hn, Hm. cbn [replace_fuel]. destruct (String.prefix old (String c s)).
    + assert (Hl : String.length (skip (String.length old) (String c s)) <= String.length s)
        by (rewrite skip_length; destruct old; [contradiction|simpl; lia]).
      f_equal. apply IH; [exact Hne|lia|lia].
    + f_equal. apply IH; [exact Hne|lia|lia].
Qed.

Lemma ReplaceAll_nomatch : forall c s old new,
  String.prefix old (String c s) = false ->
  ReplaceAll (String c s) old new = String c (ReplaceAll s old new).
Proof.
  intros c s old new H. unfold ReplaceAll. cbn [String.length replace_fuel].
  rewrite H. reflexivity.
Qed.

Lemma ReplaceAll_match : forall s old new,
  old <> "" -> String.prefix old s = true ->
  ReplaceAll s old new = new ++ ReplaceAll (skip (String.length old) s) old new.
Proof.
  intros [|c s] old new Hne H.
  - destruct old; [contradiction|discriminate].
  - unfold ReplaceAll. cbn [String.length replace_fuel]. rewrite H. f_equal.
    apply replace_fuel_enough; [exact Hne| |reflexivity].
    rewrite skip_length. destruct old; [contradiction|simpl; lia].
Qed.

Lemma ReplaceAll_lit : forall s rest p r,
  no_sep "{"%char s = true ->
  ReplaceAll (s ++ rest) (ph_text p) r = s ++ ReplaceAll rest (ph_text p) r.
Proof.
  induction s as [|c s IH]; intros rest p r H; [reflexivity|].
  unfold no_sep in H. cbn [str_forallb] in H. apply andb_prop in H as [Hc Hs].
  cbn [append]. rewrite ReplaceAll_nomatch.
  - f_equal. apply IH. exact Hs.
  - unfold ph_text. rewrite prefix_cons.
    destruct (ascii_dec "{" c) as [<-|]; [discriminate Hc|reflexivity].
Qed.

Lemma ReplaceAll_ph_same : forall p rest r,
  ReplaceAll (ph_text p ++ rest) (ph_text p) r = r ++ ReplaceAll rest (ph_text p) r.
Proof.
  intros p rest r. rewrite ReplaceAll_match.
  - rewrite skip_app. reflexivity.
  - discriminate.
  - apply prefix_app.
Qed.

Lemma ReplaceAll_ph_other : forall p q rest r,
  ph_eqb p q = false ->
  ReplaceAll (ph_text q ++ rest) (ph_text p) r = ph_text q ++ ReplaceAll rest (ph_text p) r.
Proof.
  intros p q rest r Hpq.
  change (ph_text q ++ rest) with (String "{" (String "{" (ph_body q ++ rest))).
  rewrite ReplaceAll_nomatch by (destruct p, q; try discriminate Hpq; reflexivity).
  rewrite ReplaceAll_nomatch by (destruct p, q; reflexivity).
  rewrite ReplaceAll_lit by (destruct q; reflexivity).
  reflexivity.
Qed.

Lemma ph_eqb_true : forall p q, ph_eqb p q = true -> p = q.
Proof. intros [] []; simpl; congruence. Qed.

Lemma pass_render : forall p r toks,
  Forall (fun t => token_ok t = true) toks ->
  ReplaceAll (render toks) (ph_text p) r = render (map (subst_tok p r) toks).
Proof.
  intros p r. induction toks as [|t ts IH]; intros Hall; [reflexivity|].
  inversion Hall as [|? ? Ht Hts]; subst.
  destruct t as [s|q]; cbn [render map subst_tok token_text].
  - rewrite ReplaceAll_lit by exact Ht. f_equal. apply IH. exact Hts.
  - destruct (ph_eqb p q) eqn:Hpq.
    + apply ph_eqb_true in Hpq. subst q.
      rewrite ReplaceAll_ph_same. cbn [token_text]. f_equal. apply IH. exact Hts.
    + rewrite ReplaceAll_ph_other by exact Hpq. cbn [token_text].
      f_equal. apply IH. exact Hts.
Qed.

Lemma subst_tok_ok : forall p r toks,
  no_sep "{"%char r = true ->
  Forall (fun t => token_ok t = true) toks ->
  Forall (fun t => token_ok t = true) (map (subst_tok p r) toks).
Proof.
  intros p r toks Hr Hall. apply Forall_map.
  eapply Forall_impl; [|exact Hall].
  intros [s|q] H; simpl; [exact H|]. destruct (ph_eqb p q); [exact Hr|reflexivity].
Qed.

(** ** Claim C4: template substitution *)

Lemma no_sep_app : forall c a b, no_sep c (a ++ b) = no_sep c a && no_sep c b.
Proof.
  intros c. induction a as [|x a IH]; intros b; [reflexivity|].
  unfold no_sep in *. cbn [append str_forallb]. rewrite IH. apply andb_assoc.
Qed.

Lemma Split_no_sep : forall s sep c,
  no_sep c s = true -> Forall (fun x => no_sep c x = true) (Split s sep).
Proof.
  induction s as [|a s IH]; intros sep c H.
  - repeat constructor.
  - unfold no_sep in H. cbn [str_forallb] in H. apply andb_prop in H as [Ha Hs].
    specialize (IH sep c Hs). cbn [Split].
    destruct (char_eqb a sep).
    + constructor; [reflexivity|exact IH].
    + destruct (Split s sep) as [|x xs]; constructor.
      * unfold no_sep. cbn [str_forallb]. rewrite Ha. reflexivity.
      * constructor.
      * inversion IH as [|? ? Hx _]. unfold no_sep. cbn [str_forallb].
        rewrite Ha. exact Hx.
      * inversion IH. assumption.
Qed.

Lemma Forall_nth : forall {A} (P : A -> Prop) n l d, Forall P l -> P d -> P (nth n l d).
Proof.
  intros A P n l d Hl Hd. revert n.
  induction Hl as [|x l Hx Hl IH]; intros [|n]; simpl; auto.
Qed.

Lemma ph_value_no_brace : forall v p,
  no_sep "{"%char (TrimPrefix v "v") = true -> no_sep "{"%char (ph_value v p) = true.
Proof.
  intros v p H. pose proof (Split_no_sep _ "."%char _ H) as HS.
  unfold ph_value, version_parts.
  destruct p; [exact H| | |]; apply Forall_nth; (exact HS || reflexivity).
Qed.

Lemma subst_in_order_render : forall v order toks,
  (forall p, no_sep "{"%char (ph_value v p) = true) ->
  Forall (fun t => token_ok t = true) toks ->
  subst_in_order v order (render toks) =
  render (fold_left (fun ts p => map (subst_tok p (ph_value v p)) ts) order toks).
Proof.
  intros v order. unfold subst_in_order.
  induction order as [|p order IH]; intros toks Hv Hall; [reflexivity|].
  cbn [fold_left]. unfold subst_pass at 2. rewrite pass_render by exact Hall.
  apply IH; [exact Hv|]. apply subst_tok_ok; [apply Hv|exact Hall].
Qed.

Lemma fold_left_map_tokens : forall (f : Placeholder -> Token -> Token) order toks,
  fold_left (fun ts p => map (f p) ts) order toks =
  map (fun t => fold_left (fun t p => f p t) order t) toks.
Proof.
  intros f. induction order as [|p order IH]; intros toks.
  - symmetry. apply map_id.
  - cbn [fold_left]. rewrite IH, map_map. reflexivity.
Qed.

Lemma fold_subst_lit : forall v order s,
  fold_left (fun t p => subst_tok p (ph_value v p) t) order (TLit s) = TLit s.
Proof. intros v. induction order as [|p order IH]; intros s; [reflexivity|apply IH]. Qed.

Lemma fold_subst_tok : forall v order t,
  (forall p, In p order) ->
  fold_left (fun t p => subst_tok p (ph_value v p) t) order t = TLit (tok_value v t).
Proof.
  intros v order [s|q] Hall; [apply fold_subst_lit|].
  specialize (Hall q). induction order as [|p order IH]; [destruct Hall|].
  cbn [fold_left subst_tok]. destruct (ph_eqb p q) eqn:Hpq.
  - apply ph_eqb_true in Hpq. subst p. apply fold_subst_lit.
  - apply IH. destruct Hall as [->|H]; [|exact H].
    destruct q; discriminate Hpq.
Qed.

Lemma render_values : forall v toks,
  render (map (fun t => TLit (tok_value v t)) toks) = expand v toks.
Proof.
  intros v. induction toks as [|[s|p] ts IH]; [reflexivity| |];
    cbn [map render token_text tok_value expand]; rewrite IH; reflexivity.
Qed.

Lemma expand_no_brace : forall v toks,
  (forall p, no_sep "{"%char (ph_value v p) = true) ->
  Forall (fun t => token_ok t = true) toks ->
  no_sep "{"%char (expand v toks) = true.
Proof.
  intros v toks Hv Hall. induction Hall as [|[s|p] ts Ht Hts IH]; [reflexivity| |];
    cbn [expand]; rewrite no_sep_app, IH, andb_true_r; [exact Ht|apply Hv].
Qed.

Lemma subst_in_order_no_brace : forall v order s,
  no_sep "{"%char s = true -> subst_in_order v order s = s.
Proof.
  intros v order. unfold subst_in_order.
  induction order as [|p order IH]; intros s H; [reflexivity|].
  cbn [fold_left]. unfold subst_pass at 2.
  rewrite <- (str_app_nil_r s) at 1. rewrite ReplaceAll_lit by exact H.
  cbn. rewrite str_app_nil_r. apply IH. exact H.
Qed.

Lemma resolveTag_in_order : forall v s,
  resolveTag v s = subst_in_order v [PVersion; PMajor; PMinor; PPatch] s.
Proof.
  intros v s. unfold resolveTag, subst_in_order, subst_pass, ph_value.
  destruct (version_parts v) as [[[version major] minor] patch]. reflexivity.
Qed.

(** Claim C4 (counterexample): the passes run in the fixed order
    [{{version}}], [{{major}}], [{{minor}}], [{{patch}}] and each sees the
    text the previous ones produced.  With version ["v1.2"] (patch [""]),
    the template ["{{{{patch}}version}}"] resolves to ["{{version}}"],
    while substituting [{{patch}}] first would give ["1.2"]. *)
Lemma C4_substitution_order_matters :
  resolveTag "v1.2" "{{{{patch}}version}}" = "{{version}}" /\
  subst_in_order "v1.2" [PPatch; PMinor; PMajor; PVersion] "{{{{patch}}version}}" = "1.2".
Proof. split; vm_compute; reflexivity. Qed.

(** Claim C4 (amended): when the template is literal text without ['{']
    interleaved with placeholders and the version has no ['{'], every order
    of the four passes (the code's among them) yields the template with each
    placeholder replaced by its value, and running the passes again changes
    nothing; ["{{major}}.{{minor}}.{{patch}}"] with ["v3.2.1"] gives
    ["3.2.1"], and the default tags with ["v1.2.3"] give
    [["1.2.3"; "latest"]]. *)
Theorem template_substitution_tokens :
  (forall v toks order,
     Forall (fun t => token_ok t = true) toks ->
     no_sep "{"%char (TrimPrefix v "v") = true ->
     (forall p, In p order) ->
     subst_in_order v order (render toks) = expand v toks /\
     resolveTag v (render toks) = expand v toks /\
     subst_in_order v order (resolveTag v (render toks)) = resolveTag v (render toks)) /\
  resolveTag "v3.2.1" "{{major}}.{{minor}}.{{patch}}" = "3.2.1" /\
  map (resolveTag "v1.2.3") default_tags = ["1.2.3"; "latest"].
Proof.
  split; [|split; vm_compute; reflexivity].
  intros v toks order Hall Hv Horder.
  assert (Hvals : forall p, no_sep "{"%char (ph_value v p) = true)
    by (intros p; apply ph_value_no_brace; exact Hv).
  assert (Hany : forall ord, (forall p, In p ord) ->
                 subst_in_order v ord (render toks) = expand v toks).
  { intros ord Hord. rewrite subst_in_order_render by assumption.
    rewrite fold_left_map_tokens.
    rewrite (map_ext_in _ (fun t => TLit (tok_value v t))).
    - apply render_values.
    - intros t _. apply fold_subst_tok. exact Hord. }
  assert (Hcode : resolveTag v (render toks) = expand v toks).
  { rewrite resolveTag_in_order. apply Hany. intros []; simpl; tauto. }
  split; [apply Hany; exact Horder|]. split; [exact Hcode|].
  rewrite Hcode. apply subst_in_order_no_brace. apply expand_no_brace; assumption.
Qed.

(** The first part of [template_substitution_tokens] for
    ["{{major}}.{{minor}}.{{patch}}"], ["v3.2.1"] and the reverse order. *)
Lemma template_substitution_tokens_witness :
  subst_in_order "v3.2.1" [PPatch; PMinor; PMajor; PVersion]
    (render [TPh PMajor; TLit "."; TPh PMinor; TLit "."; TPh PPatch]) = "3.2.1".
Proof.
  destruct template_substitution_tokens as [H _].
  apply (H "v3.2.1" [TPh PMajor; TLit "."; TPh PMinor; TLit "."; TPh PPatch]
           [PPatch; PMinor; PMajor; PVersion]).
  - repeat constructor.
  - reflexivity.
  - intros []; simpl; tauto.
Defined.

(** * Further properties of the plugin *)

(** ** The character classes of the validators *)

Lemma str_forallb_impl : forall (p q : ascii -> bool) s,
  (forall x, p x = true -> q x = true) -> str_forallb p s = true -> str_forallb q s = true.
Proof.
  intros p q s Hpq. induction s as [|c s IH]; [reflexivity|].
  cbn [str_forallb]. intros H. apply andb_prop in H as [Hc Hs].
  rewrite (Hpq c Hc), (IH Hs). reflexivity.
Qed.

Lemma str_forallb_length_last : forall p s d,
  str_forallb p s = true -> last_char s = Some d -> p d = true.
Proof.
  intros p s d. induction s as [|c s IH]; [discriminate|].
  cbn [str_forallb]. intros H. apply andb_prop in H as [Hc Hs].
  destruct s as [|c' s'].
  - cbn. intros [= <-]. exact Hc.
  - intros Hl. apply IH; [exact Hs|exact Hl].
Qed.

Lemma last_char_some_length : forall s d, last_char s = Some d -> 1 <= String.length s.
Proof. intros [|c s] d H; [discriminate|cbn; lia]. Qed.

Lemma no_sep_forallb : forall sep s, no_sep sep s = str_forallb (fun a => negb (char_eqb a sep)) s.
Proof. reflexivity. Qed.

(** Decide a property of all 256 bytes by enumeration. *)
Ltac all_bytes :=
  let x := fresh "x" in
  intros x; destruct x as [[] [] [] [] [] [] [] []]; vm_compute; intros;
  first [reflexivity | discriminate].

Lemma image_class_no_colon : forall x,
  (is_alnum x || char_eqb x "."%char || char_eqb x "_"%char || char_eqb x "/"%char
   || char_eqb x "-"%char) = true -> negb (char_eqb x ":"%char) = true.
Proof. all_bytes. Qed.

Lemma alnum_no_colon : forall x, is_alnum x = true -> negb (char_eqb x ":"%char) = true.
Proof. all_bytes. Qed.

Lemma alnum_no_slash : forall x, is_alnum x = true -> negb (char_eqb x "/"%char) = true.
Proof. all_bytes. Qed.

Lemma tag_class_no_colon : forall x,
  (is_alnum x || char_eqb x "."%char || char_eqb x "_"%char || char_eqb x "-"%char) = true ->
  negb (char_eqb x ":"%char) = true.
Proof. all_bytes. Qed.

Lemma tag_class_no_slash : forall x,
  (is_alnum x || char_eqb x "."%char || char_eqb x "_"%char || char_eqb x "-"%char) = true ->
  negb (char_eqb x "/"%char) = true.
Proof. all_bytes. Qed.

Lemma digit_no_slash : forall x, is_digit x = true -> negb (char_eqb x "/"%char) = true.
Proof. all_bytes. Qed.

Lemma registry_class_no_slash : forall x,
  (is_alnum x || char_eqb x "."%char || char_eqb x "-"%char) = true ->
  negb (char_eqb x "/"%char) = true.
Proof. all_bytes. Qed.

Lemma registry_class_no_colon : forall x,
  (is_alnum x || char_eqb x "."%char || char_eqb x "-"%char) = true ->
  negb (char_eqb x ":"%char) = true.
Proof. all_bytes. Qed.

Lemma digit_no_colon : forall x, is_digit x = true -> negb (char_eqb x ":"%char) = true.
Proof. all_bytes. Qed.

(** What [validateImageName] lets through. *)
Lemma validateImageName_ok : forall n,
  validateImageName n = None ->
  2 <= String.length n <= 256 /\ no_sep ":"%char n = true /\ Contains n ".." = false /\
  option_map is_alnum (get 0 n) = Some true /\ option_map is_alnum (last_char n) = Some true.
Proof.
  intros n. unfold validateImageName.
  destruct (String.eqb n "") eqn:E0; [discriminate|].
  destruct (Nat.ltb 256 (String.length n)) eqn:E1; [discriminate|].
  destruct (imageNamePattern n) eqn:E2; [|discriminate].
  destruct (Contains n "..") eqn:E3; [discriminate|]. intros _.
  apply Nat.ltb_ge in E1.
  destruct n as [|c rest]; [discriminate|].
  unfold imageNamePattern, match_first_mid_last in E2.
  destruct (last_char rest) as [d|] eqn:Ed; [|rewrite andb_false_r in E2; discriminate].
  apply andb_prop in E2 as [E2 Hd]. apply andb_prop in E2 as [Hc Hr].
  pose proof (last_char_some_length _ _ Ed).
  split; [cbn [String.length] in *; lia|]. split.
  - rewrite no_sep_forallb. cbn [str_forallb]. rewrite (alnum_no_colon c Hc). cbn [andb].
    exact (str_forallb_impl _ _ _ image_class_no_colon Hr).
  - split; [reflexivity|]. split; [cbn; rewrite Hc; reflexivity|].
    replace (last_char (String c rest)) with (Some d)
      by (destruct rest; [discriminate|exact (eq_sym Ed)]).
    cbn. rewrite Hd. reflexivity.
Qed.

(** What [validateTag] lets through. *)
Lemma validateTag_ok : forall t,
  validateTag t = None ->
  1 <= String.length t <= 128 /\ no_sep ":"%char t = true /\ no_sep "/"%char t = true /\
  option_map is_alnum (get 0 t) = Some true.
Proof.
  intros t. unfold validateTag.
  destruct (String.eqb t "") eqn:E0; [discriminate|].
  destruct (Nat.ltb 128 (String.length t)) eqn:E1; [discriminate|].
  destruct (tagPattern t) eqn:E2; [|discriminate]. intros _.
  apply Nat.ltb_ge in E1.
  destruct t as [|c rest]; [discriminate|].
  unfold tagPattern, match_first_mid in E2. apply andb_prop in E2 as [Hc Hr].
  split; [cbn [String.length] in *; lia|].
  split; [|split].
  - rewrite no_sep_forallb. cbn [str_forallb]. rewrite (alnum_no_colon c Hc). cbn [andb].
    exact (str_forallb_impl _ _ _ tag_class_no_colon Hr).
  - rewrite no_sep_forallb. cbn [str_forallb]. rewrite (alnum_no_slash c Hc). cbn [andb].
    exact (str_forallb_impl _ _ _ tag_class_no_slash Hr).
  - cbn. rewrite Hc. reflexivity.
Qed.

Lemma registry_rest_shape : forall s,
  registry_rest s = true ->
  no_sep "/"%char s = true /\
  (no_sep ":"%char s = true \/
   exists h port, s = h ++ String ":" port /\ no_sep ":"%char h = true /\
                  port <> "" /\ str_forallb is_digit port = true).
Proof.
  induction s as [|c s IH]; [intros _; split; [reflexivity|left; reflexivity]|].
  cbn [registry_rest].
  destruct (is_alnum c || char_eqb c "."%char || char_eqb c "-"%char) eqn:Ec.
  - intros H. destruct (IH H) as [Hs [Hn|(h & port & -> & Hh & Hp & Hd)]].
    + split; rewrite no_sep_forallb; cbn [str_forallb].
      * rewrite (registry_class_no_slash c Ec). exact Hs.
      * left. rewrite (registry_class_no_colon c Ec). exact Hn.
    + split.
      * rewrite no_sep_forallb; cbn [str_forallb].
        rewrite (registry_class_no_slash c Ec). exact Hs.
      * right. exists (String c h), port. split; [reflexivity|]. split; [|auto].
        rewrite no_sep_forallb; cbn [str_forallb].
        rewrite (registry_class_no_colon c Ec). exact Hh.
  - destruct (char_eqb c ":"%char) eqn:Ecol; [|discriminate].
    apply Ascii.eqb_eq in Ecol. subst c.
    destruct s as [|d s'] eqn:Es; [discriminate|]. rewrite <- Es. intros H.
    split.
    + rewrite no_sep_forallb; cbn [str_forallb].
      change (negb (char_eqb ":" "/")) with true. cbn [andb].
      exact (str_forallb_impl _ _ _ digit_no_slash H).
    + right. exists "", s. split; [reflexivity|]. split; [reflexivity|].
      split; [subst s; discriminate|exact H].
Qed.

(** What [validateRegistry] lets through. *)
Lemma validateRegistry_ok : forall r,
  validateRegistry r = None ->
  r = "" \/ r = "docker.io" \/
  (String.length r <= 256 /\ no_sep "/"%char r = true /\
   option_map is_alnum (get 0 r) = Some true /\
   (no_sep ":"%char r = true \/
    exists h port, r = h ++ String ":" port /\ no_sep ":"%char h = true /\
                   port <> "" /\ str_forallb is_digit port = true)).
Proof.
  intros r. unfold validateRegistry.
  destruct (String.eqb_spec r "") as [->|N0]; [left; reflexivity|].
  destruct (String.eqb_spec r "docker.io") as [->|N1]; [right; left; reflexivity|].
  cbn [orb]. destruct (Nat.ltb 256 (String.length r)) eqn:E1; [discriminate|].
  destruct (registryPattern r) eqn:E2; [|discriminate]. intros _.
  apply Nat.ltb_ge in E1. right; right.
  destruct r as [|c rest]; [contradiction|].
  unfold registryPattern in E2. apply andb_prop in E2 as [Hc Hr].
  destruct (registry_rest_shape rest Hr) as [Hs Hcol].
  split; [exact E1|]. split.
  - rewrite no_sep_forallb; cbn [str_forallb]. rewrite (alnum_no_slash c Hc). exact Hs.
  - split; [cbn; rewrite Hc; reflexivity|].
    destruct Hcol as [Hn|(h & port & -> & Hh & Hp & Hd)].
    + left. rewrite no_sep_forallb; cbn [str_forallb]. rewrite (alnum_no_colon c Hc). exact Hn.
    + right. exists (String c h), port. split; [reflexivity|]. split; [|auto].
      rewrite no_sep_forallb; cbn [str_forallb]. rewrite (alnum_no_colon c Hc). exact Hh.
Qed.

(** ** Tag resolution *)

Lemma prefix_app_l : forall a b s, String.prefix (a ++ b) s = true -> String.prefix a s = true.
Proof.
  induction a as [|x a IH]; intros b s H; [destruct s; reflexivity|].
  destruct s as [|y s]; [discriminate|].
  cbn [append] in H. rewrite prefix_cons in H. rewrite prefix_cons.
  destruct (ascii_dec x y); [exact (IH b s H)|discriminate].
Qed.

Lemma ReplaceAll_no_open : forall s p r,
  Contains s "{{" = false -> ReplaceAll s (ph_text p) r = s.
Proof.
  induction s as [|c s IH]; intros p r H; [reflexivity|].
  change (String.prefix "{{" (String c s) || Contains s "{{" = false) in H.
  apply orb_false_iff in H as [H1 H2].
  rewrite ReplaceAll_nomatch.
  - f_equal. exact (IH p r H2).
  - destruct (String.prefix (ph_text p) (String c s)) eqn:E; [|reflexivity].
    unfold ph_text in E. change (String "{" (String "{" (ph_body p)))
      with ("{{" ++ ph_body p) in E.
    apply prefix_app_l in E. congruence.
Qed.

Lemma subst_in_order_no_open : forall v order s,
  Contains s "{{" = false -> subst_in_order v order s = s.
Proof.
  intros v order. unfold subst_in_order.
  induction order as [|p order IH]; intros s H; [reflexivity|].
  cbn [fold_left]. unfold subst_pass at 2. rewrite ReplaceAll_no_open by exact H.
  apply IH. exact H.
Qed.

Lemma resolveTag_literal : forall v t, Contains t "{{" = false -> resolveTag v t = t.
Proof.
  intros v t H. rewrite resolveTag_in_order. apply subst_in_order_no_open. exact H.
Qed.

(** [resolve_tags] fails only on a non-empty resolved tag that
    [validateTag] rejects, and reports it. *)
Lemma resolve_tags_inl : forall v ts e,
  resolve_tags v ts = inl e ->
  exists t m, In t ts /\ resolveTag v t <> "" /\ validateTag (resolveTag v t) = Some m /\
              e = "invalid tag '" ++ resolveTag v t ++ "': " ++ m.
Proof.
  intros v. induction ts as [|t ts IH]; intros e H; [discriminate|].
  cbn [resolve_tags] in H.
  destruct (String.eqb_spec (resolveTag v t) "") as [E|NE].
  - destruct (IH e H) as (t' & m & Hin & H1 & H2 & H3).
    exists t', m. split; [right; exact Hin|auto].
  - destruct (validateTag (resolveTag v t)) as [m|] eqn:Ev.
    + injection H as <-. exists t, m. split; [left; reflexivity|auto].
    + destruct (resolve_tags v ts) as [e'|l] eqn:Er; [|discriminate].
      injection H as <-. destruct (IH e' eq_refl) as (t' & m & Hin & H1 & H2 & H3).
      exists t', m. split; [right; exact Hin|auto].
Qed.

(** ** Image references *)

Lemma cancel_sep : forall c a b x y,
  no_sep c a = true -> no_sep c b = true ->
  a ++ String c x = b ++ String c y -> a = b /\ x = y.
Proof.
  intros c. induction a as [|d a IH]; intros [|e b] x y Ha Hb H; cbn [append] in H.
  - injection H as ->. auto.
  - injection H as -> _. rewrite no_sep_forallb in Hb. cbn [str_forallb] in Hb.
    unfold char_eqb in Hb. rewrite Ascii.eqb_refl in Hb. discriminate.
  - injection H as -> _. rewrite no_sep_forallb in Ha. cbn [str_forallb] in Ha.
    unfold char_eqb in Ha. rewrite Ascii.eqb_refl in Ha. discriminate.
  - injection H as -> H. rewrite no_sep_forallb in Ha, Hb. cbn [str_forallb] in Ha, Hb.
    apply andb_prop in Ha as [_ Ha]. apply andb_prop in Hb as [_ Hb].
    destruct (IH b x y Ha Hb H) as [-> ->]. auto.
Qed.

Lemma imageRef_split : forall cfg tag,
  imageRef cfg tag =
  if registry_prefixed cfg then Registry cfg ++ String "/" (Image cfg ++ String ":" tag)
  else Image cfg ++ String ":" tag.
Proof.
  intros cfg tag. unfold imageRef, registry_prefixed.
  destruct (negb _ && negb _); [|reflexivity].
  rewrite str_app_assoc. reflexivity.
Qed.

Lemma registry_prefixed_no_slash : forall cfg,
  registry_prefixed cfg = true -> validateRegistry (Registry cfg) = None ->
  no_sep "/"%char (Registry cfg) = true.
Proof.
  intros cfg Hp Hv. unfold registry_prefixed in Hp.
  apply andb_prop in Hp as [H1 H2]. apply negb_true_iff, String.eqb_neq in H1, H2.
  destruct (validateRegistry_ok _ Hv) as [E|[E|(_ & H & _)]]; [contradiction|contradiction|exact H].
Qed.

(** ** The build command *)

Lemma build_call_args : forall cfg names rc,
  exists mid,
    args (build_call cfg names rc) =
      app ["build"] (app (flat_map (fun n => ["-t"; n]) names)
      (app ["-f"; if String.eqb (Dockerfile cfg) "" then "Dockerfile" else Dockerfile cfg]
      (app (kv_args "--build-arg" (BuildArgs cfg))
      (app ["--build-arg"; "VERSION=" ++ Version rc]
      (app mid [if String.eqb (Context cfg) "" then "." else Context cfg]))))).
Proof.
  intros cfg names rc. unfold build_call. cbn [args].
  set (df := if String.eqb (Dockerfile cfg) "" then "Dockerfile" else Dockerfile cfg).
  set (ctx := if String.eqb (Context cfg) "" then "." else Context cfg).
  set (pre := app (app (app (app ["build"] (flat_map (fun n => ["-t"; n]) names)) ["-f"; df])
                (kv_args "--build-arg" (BuildArgs cfg))) ["--build-arg"; "VERSION=" ++ Version rc]).
  assert (Hpre : pre = app ["build"] (app (flat_map (fun n => ["-t"; n]) names) (app ["-f"; df]
                        (app (kv_args "--build-arg" (BuildArgs cfg))
                        ["--build-arg"; "VERSION=" ++ Version rc]))))
    by (unfold pre; rewrite <- !app_assoc; reflexivity).
  set (a1 := match Platforms cfg with [] => pre | ps => app pre ["--platform"; Join ps ","] end).
  assert (H1 : exists m, a1 = app pre m)
    by (unfold a1; destruct (Platforms cfg); eexists; [rewrite app_nil_r|]; reflexivity).
  destruct H1 as [m1 H1].
  exists (app m1 (app (kv_args "--label" (Labels cfg))
          (app (flat_map (fun cache => ["--cache-from"; cache]) (CacheFrom cfg))
          (app (if NoCache cfg then ["--no-cache"] else [])
          (if negb (String.eqb (Target cfg) "") then ["--target"; Target cfg] else []))))).
  fold pre. fold a1. rewrite H1, Hpre.
  destruct (NoCache cfg), (negb (String.eqb (Target cfg) "")); rewrite <- !app_assoc;
    cbn [app]; rewrite ?app_nil_r; rewrite <- ?app_assoc; reflexivity.
Qed.

(** ** The calls issued *)

Lemma run_steps_trace : forall exec cfg names rc steps tr,
  exists k, snd (run_steps exec cfg names rc steps tr) =
            app tr (map (step_call cfg names rc) (firstn k steps)).
Proof.
  intros exec cfg names rc. induction steps as [|s rest IH]; intros tr.
  - exists 0. cbn. symmetry. apply app_nil_r.
  - rewrite run_steps_cons. destruct (exec tr (step_call cfg names rc s)).
    + exists 1. reflexivity.
    + destruct (IH (app tr [step_call cfg names rc s])) as [k Hk].
      exists (S k). rewrite Hk. cbn [firstn map]. rewrite <- app_assoc. reflexivity.
Qed.

Lemma run_steps_all_ok : forall exec cfg names rc steps tr,
  (forall tr0 c, exec tr0 c = None) ->
  run_steps exec cfg names rc steps tr = (None, app tr (map (step_call cfg names rc) steps)).
Proof.
  intros exec cfg names rc steps. induction steps as [|s rest IH]; intros tr Hok.
  - cbn. rewrite app_nil_r. reflexivity.
  - rewrite run_steps_cons, Hok, IH by exact Hok. cbn [map]. rewrite <- app_assoc. reflexivity.
Qed.

(** The calls [Execute] adds to the trace: none, or the first [k] planned
    steps of a post-publish run that passed validation. *)
Lemma Execute_trace : forall exec req tr,
  snd (Execute exec req tr) = tr \/
  exists rt names k,
    String.eqb (Hook req) HookPostPublish = true /\ DryRun req = false /\
    validate_and_resolve (ReqConfig req) (ReqContext req) = inr (rt, names) /\
    snd (Execute exec req tr) =
      app tr (map (step_call (ReqConfig req) names (ReqContext req))
                  (firstn k (planned_steps (ReqConfig req) names))).
Proof.
  intros exec req tr. unfold Execute.
  destruct (String.eqb (Hook req) HookPostPublish) eqn:Eh; [|left; reflexivity].
  destruct (validate_and_resolve (ReqConfig req) (ReqContext req)) as [resp|[rt names]] eqn:E.
  - left. unfold buildAndPush. rewrite E. reflexivity.
  - destruct (DryRun req) eqn:Ed.
    + left. unfold buildAndPush. rewrite E. reflexivity.
    + right. pose proof (buildAndPush_run exec (ReqConfig req) (ReqContext req) tr rt names E) as R.
      destruct (run_steps_trace exec (ReqConfig req) names (ReqContext req)
                  (planned_steps (ReqConfig req) names) tr) as [k Hk].
      destruct (buildAndPush exec (ReqConfig req) (ReqContext req) false tr) as [res tr'].
      destruct (run_steps _ _ _ _ _ _) as [o tr'']. destruct R as [-> _].
      exists rt, names, k. repeat split; auto.
Qed.

Lemma In_firstn : forall {A} (x : A) k l, In x (firstn k l) -> In x l.
Proof.
  intros A x k l H. rewrite <- (firstn_skipn k l). apply in_or_app. left. exact H.
Qed.

Lemma push_all_all_ok : forall exec names tr,
  (forall tr0 c, exec tr0 c = None) ->
  push_all exec names tr = (None, app tr (map push_call names)).
Proof.
  intros exec. induction names as [|n names IH]; intros tr Hok.
  - cbn. rewrite app_nil_r. reflexivity.
  - cbn [push_all]. unfold dockerPush. rewrite bind_Run, Hok, IH by exact Hok.
    cbn [map]. rewrite <- app_assoc. reflexivity.
Qed.

(** ** [getStringMap] *)

Lemma lookup_map_insert : forall {A} k k' (v : A) m,
  lookup k (map_insert k' v m) = if String.eqb k k' then Some v else lookup k m.
Proof.
  intros A k k' v. induction m as [|[k0 v0] m IH]; cbn [map_insert lookup].
  - destruct (String.eqb k k'); reflexivity.
  - destruct (String.eqb_spec k' k0) as [->|N]; cbn [lookup].
    + destruct (String.eqb k k0); reflexivity.
    + rewrite IH. destruct (String.eqb_spec k k0) as [->|N2]; [|reflexivity].
      apply String.eqb_neq in N. rewrite String.eqb_sym, N. reflexivity.
Qed.

Lemma lookup_notin : forall {A} k (m : list (string * A)),
  ~ In k (map fst m) -> lookup k m = None.
Proof.
  intros A k. induction m as [|[k0 v0] m IH]; intros H; [reflexivity|].
  cbn [lookup]. destruct (String.eqb_spec k k0) as [->|N].
  - exfalso. apply H. left. reflexivity.
  - apply IH. intros Hin. apply H. right. exact Hin.
Qed.

Lemma map_insert_keys : forall {A} k (v : A) m x,
  In x (map fst (map_insert k v m)) <-> x = k \/ In x (map fst m).
Proof.
  intros A k v. induction m as [|[k0 v0] m IH]; intros x; cbn [map_insert map fst In].
  - split; intros H; intuition (subst; auto).
  - destruct (String.eqb_spec k k0) as [->|N]; cbn [map fst In];
      [split; intros H; intuition (subst; auto)|].
    rewrite IH. split; intros H; intuition (subst; auto).
Qed.

Lemma map_insert_nodup : forall {A} k (v : A) m,
  NoDup (map fst m) -> NoDup (map fst (map_insert k v m)).
Proof.
  intros A k v. induction m as [|[k0 v0] m IH]; intros H; cbn [map_insert map fst].
  - constructor; [intros []|constructor].
  - inversion H as [|? ? Hn Hd]; subst.
    destruct (String.eqb_spec k k0) as [->|N]; cbn [map fst].
    + constructor; assumption.
    + constructor; [|exact (IH Hd)]. rewrite map_insert_keys. intros [E|E]; [congruence|tauto].
Qed.

Lemma fold_string_entry_lookup : forall m acc k,
  NoDup (map fst m) ->
  lookup k (fold_left string_entry m acc) =
  match lookup k m with
  | Some (VString s) => Some s
  | _ => lookup k acc
  end.
Proof.
  induction m as [|[k0 v0] m IH]; intros acc k Hd; [reflexivity|].
  inversion Hd as [|? ? Hn Hd']; subst. cbn [fold_left lookup].
  rewrite (IH _ k Hd'). unfold string_entry. cbn [fst snd].
  destruct (String.eqb_spec k k0) as [->|N].
  - rewrite (lookup_notin k0 m Hn).
    destruct v0; try reflexivity. rewrite lookup_map_insert, String.eqb_refl. reflexivity.
  - destruct (lookup k m) as [[]|]; try reflexivity;
      destruct v0; try reflexivity; rewrite lookup_map_insert;
      apply String.eqb_neq in N; rewrite N; reflexivity.
Qed.

Lemma fold_string_entry_nodup : forall m acc,
  NoDup (map fst acc) -> NoDup (map fst (fold_left string_entry m acc)).
Proof.
  induction m as [|[k0 v0] m IH]; intros acc H; [exact H|].
  cbn [fold_left]. apply IH. unfold string_entry. cbn [snd fst].
  destruct v0; try exact H. apply map_insert_nodup. exact H.
Qed.

Lemma fold_string_entry_keys : forall m acc k,
  In k (map fst (fold_left string_entry m acc)) -> In k (map fst m) \/ In k (map fst acc).
Proof.
  induction m as [|[k0 v0] m IH]; intros acc k H; [right; exact H|].
  cbn [fold_left] in H. destruct (IH _ _ H) as [Hm|Ha]; [left; right; exact Hm|].
  unfold string_entry in Ha. cbn [snd fst] in Ha.
  destruct v0; try (right; exact Ha).
  apply map_insert_keys in Ha as [->|Ha]; [left; left; reflexivity|right; exact Ha].
Qed.

Lemma getStringMap_fold : forall raw key,
  getStringMap raw key =
  match lookup key raw with
  | Some (VMap m) => fold_left string_entry m []
  | _ => []
  end.
Proof. reflexivity. Qed.

(** Every key of [getStringMap raw key] is a key of the map stored under [key]. *)
Lemma getStringMap_keys : forall raw key k,
  In k (map fst (getStringMap raw key)) ->
  exists m, lookup key raw = Some (VMap m) /\ In k (map fst m).
Proof.
  intros raw key k. rewrite getStringMap_fold.
  destruct (lookup key raw) as [[]|]; intros H; try destruct H.
  destruct (fold_string_entry_keys _ _ _ H) as [Hm|[]]. eexists. split; [reflexivity|exact Hm].
Qed.

(** ** [Validate] and the checks of [buildAndPush] *)

Lemma check_build_args_ok : forall kvs,
  Forall (fun kv => validateBuildArgKey (fst kv) = None) kvs -> check_build_args kvs = None.
Proof.
  induction kvs as [|[k v] kvs IH]; intros H; [reflexivity|].
  inversion H as [|? ? Hk Hr]; subst. cbn [check_build_args]. cbn [fst] in Hk.
  rewrite Hk. exact (IH Hr).
Qed.

Lemma check_labels_ok : forall kvs,
  Forall (fun kv => validateLabelKey (fst kv) = None) kvs -> check_labels kvs = None.
Proof.
  induction kvs as [|[k v] kvs IH]; intros H; [reflexivity|].
  inversion H as [|? ? Hk Hr]; subst. cbn [check_labels]. cbn [fst] in Hk.
  rewrite Hk. exact (IH Hr).
Qed.

Lemma key_errors_nil : forall field check raw key,
  key_errors field check (lookup key raw) = [] ->
  Forall (fun kv => check (fst kv) = None) (getStringMap raw key).
Proof.
  intros field check raw key H. apply Forall_forall. intros [k v] Hin.
  assert (Hk : In k (map fst (getStringMap raw key)))
    by (apply in_map_iff; exists (k, v); auto).
  destruct (getStringMap_keys _ _ _ Hk) as (m & Hm & Hkm).
  rewrite Hm in H. cbn [key_errors] in H.
  apply in_map_iff in Hkm as ([k' v'] & Hk' & Hin'). cbn [fst] in Hk' |- *. subst k'.
  destruct (check k) as [err|] eqn:Ec; [|reflexivity].
  exfalso. assert (Hx : In (field, "invalid key '" ++ k ++ "': " ++ err)
                          (flat_map (fun kv => match check (fst kv) with
                                               | Some err => [(field, "invalid key '" ++ fst kv ++ "': " ++ err)]
                                               | None => [] end) m)).
  { apply in_flat_map. exists (k, v'). cbn [fst]. rewrite Ec. split; [exact Hin'|left; reflexivity]. }
  rewrite H in Hx. destruct Hx.
Qed.

Lemma flat_map_nil : forall {A B} (f : A -> list B) l x, flat_map f l = [] -> In x l -> f x = [].
Proof.
  intros A B f l x H Hin. destruct (f x) as [|y ys] eqn:E; [reflexivity|].
  exfalso. assert (Hy : In y (flat_map f l)) by (apply in_flat_map; exists x; rewrite E; split; [exact Hin|left; reflexivity]).
  rewrite H in Hy. destruct Hy.
Qed.

(** When [Validate] reports nothing, the checks of [buildAndPush] on the
    parsed configuration can only fail on a resolved template tag. *)
Lemma Validate_nil_runtime : forall config P rc resp,
  Validate config P = [] ->
  validate_and_resolve (parseConfig config P) rc = inl resp ->
  exists t m, In t (effective_tags (parseConfig config P)) /\ Contains t "{{" = true /\
    validateTag (resolveTag (Version rc) t) = Some m /\
    Error resp = "invalid tag '" ++ resolveTag (Version rc) t ++ "': " ++ m.
Proof.
  intros config P rc resp HV Hr. unfold Validate in HV.
  apply app_eq_nil in HV as [Himg HV]. apply app_eq_nil in HV as [Hreg HV].
  apply app_eq_nil in HV as [Hdf HV]. apply app_eq_nil in HV as [Hctx HV].
  apply app_eq_nil in HV as [Hba HV]. apply app_eq_nil in HV as [Hlb Htags].
  destruct (String.eqb (GImage P) "") eqn:E0; [discriminate|].
  unfold field_error in Himg, Hreg, Hdf, Hctx.
  destruct (validateImageName (GImage P)) eqn:E1; [discriminate|].
  destruct (validateRegistry (GRegistry P)) eqn:E2; [discriminate|].
  destruct (validatePath (GDockerfile P)) eqn:E3; [discriminate|].
  destruct (validatePath (GContext P)) eqn:E4; [discriminate|].
  pose proof (check_build_args_ok _ (key_errors_nil _ _ _ _ Hba)) as E5.
  pose proof (check_labels_ok _ (key_errors_nil _ _ _ _ Hlb)) as E6.
  unfold validate_and_resolve in Hr. cbn [Image Registry Dockerfile Context BuildArgs Labels parseConfig] in Hr.
  rewrite E1, E2, E3, E4, E5, E6 in Hr.
  destruct (resolve_tags (Version rc) (effective_tags (parseConfig config P))) as [msg|] eqn:E7;
    [|discriminate].
  injection Hr as <-.
  destruct (resolve_tags_inl _ _ _ E7) as (t & m & Hin & Hne & Hv & He).
  exists t, m. split; [exact Hin|]. split; [|split; [exact Hv|exact He]].
  destruct (Contains t "{{") eqn:Ec; [reflexivity|exfalso].
  rewrite (resolveTag_literal _ _ Ec) in Hv.
  unfold effective_tags in Hin. cbn [Tags parseConfig] in Hin.
  destruct (GTags P) as [|t0 ts] eqn:Et.
  - destruct Hin as [<-|[<-|[]]]; [discriminate Ec|discriminate Hv].
  - try rewrite Et in Htags; try rewrite Et in Hin.
    pose proof (flat_map_nil _ _ _ Htags Hin) as Ht. cbn beta in Ht.
    rewrite Ec, Hv in Ht. discriminate.
Qed.

(** ** [filepath.Clean] *)

Lemma string_of_rev_snoc : forall o x acc,
  string_of_rev (app o [x]) acc = String x (string_of_rev o acc).
Proof.
  induction o as [|c o IH]; intros x acc; [reflexivity|].
  cbn [app string_of_rev]. apply IH.
Qed.

Lemma Clean_out_snoc : forall o b,
  match app o [b] with [] => "." | _ => string_of_rev (app o [b]) EmptyString end =
  String b (string_of_rev o EmptyString).
Proof. intros [|c o] b; [reflexivity|exact (string_of_rev_snoc (c :: o) b EmptyString)]. Qed.

(** [backtrack] keeps a suffix of the buffer, at least [dotdot] bytes long
    when the buffer has that many. *)
Lemma backtrack_suffix : forall o c d,
  exists pre, o = app pre (backtrack c o d) /\ Nat.min d (List.length o) <= List.length (backtrack c o d).
Proof.
  induction o as [|c2 o IH]; intros c d.
  - exists []. cbn. split; [reflexivity|lia].
  - cbn [backtrack]. destruct (Nat.ltb d (List.length (c2 :: o)) && negb (is_sep c)) eqn:E.
    + apply andb_prop in E as [E _]. apply Nat.ltb_lt in E. cbn [List.length] in E.
      destruct (IH c2 d) as (pre & Ho & Hl). exists (c2 :: pre). split.
      * cbn [app]. rewrite <- Ho. reflexivity.
      * cbn [List.length]. lia.
    + exists []. split; [reflexivity|lia].
Qed.

Lemma suffix_snoc : forall (pre r o : list ascii) b,
  app pre r = app o [b] -> r <> [] -> exists r', r = app r' [b].
Proof.
  intros pre r o b H Hr. destruct (exists_last Hr) as (r0 & x & ->).
  rewrite app_assoc in H. apply app_inj_tail in H as [_ ->]. exists r0. reflexivity.
Qed.

Lemma prefix_nil : forall s, String.prefix "" s = true.
Proof. intros []; reflexivity. Qed.

Lemma dotdot_step_rooted : forall out,
  ends_slash out -> ends_slash (fst (dotdot_step true out 1)) /\ snd (dotdot_step true out 1) = 1.
Proof.
  intros out [o' Ho]. unfold dotdot_step.
  destruct (Nat.ltb 1 (List.length out)) eqn:E; [|split; [exists o'; exact Ho|reflexivity]].
  apply Nat.ltb_lt in E. destruct out as [|c o]; [cbn in E; lia|].
  cbn [fst snd]. split; [|reflexivity].
  destruct o' as [|c' o'']; [destruct o; [cbn in E; lia|discriminate]|].
  injection Ho as _ Ho.
  destruct (backtrack_suffix o c 1) as (pre & Hpre & Hl).
  assert (Hne : backtrack c o 1 <> []).
  { intros Hb. rewrite Hb in Hl. cbn [List.length] in E, Hl. lia. }
  rewrite Hpre in Ho. exact (suffix_snoc _ _ _ _ Ho Hne).
Qed.

Ltac clean_step_cbn := cbn [clean_loop].

Lemma clean_loop_rooted : forall n s copying out,
  String.length s <= n -> ends_slash out -> ends_slash (clean_loop true copying s out 1).
Proof.
  induction n as [|n IH]; intros s copying out Hn Ho.
  - destruct s; [exact Ho|cbn in Hn; lia].
  - destruct s as [|c s1]; [exact Ho|]. cbn [String.length] in Hn. clean_step_cbn.
    destruct (copying && negb (is_sep c)).
    { apply IH; [lia|]. destruct Ho as [o ->]. exists (c :: o). reflexivity. }
    destruct (is_sep c); [apply IH; [lia|exact Ho]|].
    destruct (char_eqb c "."%char && at_sep_or_end s1); [apply IH; [lia|exact Ho]|].
    assert (Hdef : ends_slash
      (clean_loop true true s1
        (c :: (if (true && negb (Nat.eqb (List.length out) 1)) ||
                   (negb true && negb (Nat.eqb (List.length out) 0))
               then "/"%char :: out else out)) 1)).
    { apply IH; [lia|]. destruct Ho as [o ->].
      destruct (_ || _); [exists (c :: "/"%char :: o)|exists (c :: o)]; reflexivity. }
    destruct s1 as [|d s2]; [exact Hdef|].
    destruct (char_eqb c "."%char && char_eqb d "."%char && at_sep_or_end s2); [|exact Hdef].
    destruct (dotdot_step_rooted out Ho) as [H1 H2].
    destruct (dotdot_step true out 1) as [out' dd']. cbn [fst snd] in H1, H2. subst dd'.
    apply IH; [cbn [String.length] in Hn; lia|exact H1].
Qed.

Lemma nr_ok_cons_nonempty : forall x out, nr_ok out -> out <> [] -> nr_ok (x :: out).
Proof.
  intros x out [->|(o & b & -> & Hb)] Hne; [contradiction|].
  right. exists (x :: o), b. split; [reflexivity|exact Hb].
Qed.

Lemma nr_ok_cons : forall x out, nr_ok out -> is_sep x = false -> nr_ok (x :: out).
Proof.
  intros x out Ho Hx. destruct Ho as [->|Ho].
  - right. exists [], x. split; [reflexivity|]. intros ->. discriminate Hx.
  - apply nr_ok_cons_nonempty; [right; exact Ho|].
    destruct Ho as (o & b & -> & _). destruct o; discriminate.
Qed.

Lemma dotdot_step_nr : forall out dd, nr_ok out -> nr_ok (fst (dotdot_step false out dd)).
Proof.
  intros out dd Ho. unfold dotdot_step.
  destruct (Nat.ltb dd (List.length out)) eqn:E.
  - destruct out as [|c o]; [exact Ho|]. cbn [fst].
    assert (Hoo : nr_ok o).
    { destruct Ho as [|(o' & b & Ho & Hb)]; [discriminate|].
      destruct o' as [|c' o'']; [injection Ho as _ ->; left; reflexivity|].
      injection Ho as _ ->. right. exists o'', b. auto. }
    destruct (backtrack_suffix o c dd) as (pre & Hpre & _).
    destruct (backtrack c o dd) as [|y r] eqn:Eb; [left; reflexivity|].
    destruct Hoo as [->|(o' & b & Ho' & Hb)]; [destruct pre; discriminate|].
    rewrite Ho' in Hpre. symmetry in Hpre.
    destruct (suffix_snoc _ _ _ _ Hpre ltac:(discriminate)) as [r' Hr'].
    right. exists r', b. auto.
  - cbn [negb fst].
    destruct out as [|c o].
    + right. exists ["."%char], "."%char. split; [reflexivity|discriminate].
    + destruct Ho as [|(o' & b & Ho & Hb)]; [discriminate|].
      right. exists ("."%char :: "."%char :: "/"%char :: o'), b.
      split; [|exact Hb]. cbn [List.length Nat.ltb Nat.leb]. rewrite Ho. reflexivity.
Qed.

Lemma clean_loop_nr : forall n s copying out dd,
  String.length s <= n -> nr_ok out -> nr_ok (clean_loop false copying s out dd).
Proof.
  induction n as [|n IH]; intros s copying out dd Hn Ho.
  - destruct s; [exact Ho|cbn in Hn; lia].
  - destruct s as [|c s1]; [exact Ho|]. cbn [String.length] in Hn. clean_step_cbn.
    destruct (copying && negb (is_sep c)) eqn:Ecopy.
    { apply andb_prop in Ecopy as [_ Hc]. apply negb_true_iff in Hc.
      apply IH; [lia|]. apply nr_ok_cons; assumption. }
    destruct (is_sep c) eqn:Hsep; [apply IH; [lia|exact Ho]|].
    destruct (char_eqb c "."%char && at_sep_or_end s1); [apply IH; [lia|exact Ho]|].
    assert (Hdef : nr_ok
      (clean_loop false true s1
        (c :: (if (false && negb (Nat.eqb (List.length out) 1)) ||
                   (negb false && negb (Nat.eqb (List.length out) 0))
               then "/"%char :: out else out)) dd)).
    { apply IH; [lia|]. apply nr_ok_cons; [|exact Hsep].
      destruct out as [|y o]; cbn -[nr_ok]; [left; reflexivity|].
      apply nr_ok_cons_nonempty; [exact Ho|discriminate]. }
    destruct s1 as [|d s2]; [exact Hdef|].
    destruct (char_eqb c "."%char && char_eqb d "."%char && at_sep_or_end s2); [|exact Hdef].
    pose proof (dotdot_step_nr out dd Ho) as H1.
    destruct (dotdot_step false out dd) as [out' dd']. cbn [fst] in H1.
    apply IH; [cbn [String.length] in Hn; lia|exact H1].
Qed.

(** [filepath.Clean] keeps a leading ['/'] and adds none. *)
Lemma Clean_IsAbs : forall p, IsAbs (Clean p) = HasPrefix p "/".
Proof.
  intros [|c rest]; [reflexivity|]. unfold Clean.
  destruct (is_sep c) eqn:Hc.
  - destruct (clean_loop_rooted (String.length rest) rest false ["/"%char] (le_n _)
                (ex_intro _ [] eq_refl)) as [o Ho].
    rewrite Ho, Clean_out_snoc. unfold is_sep, char_eqb in Hc. apply Ascii.eqb_eq in Hc. subst c.
    unfold IsAbs, HasPrefix. rewrite !prefix_cons_same, !prefix_nil. reflexivity.
  - destruct (clean_loop_nr (String.length (String c rest)) (String c rest) false [] 0 (le_n _)
                (or_introl eq_refl)) as [Ho|(o & b & Ho & Hb)].
    + rewrite Ho. unfold IsAbs, HasPrefix. rewrite !prefix_cons.
      destruct (ascii_dec "/" c) as [<-|]; [discriminate Hc|reflexivity].
    + rewrite Ho, Clean_out_snoc. unfold IsAbs, HasPrefix. rewrite !prefix_cons.
      destruct (ascii_dec "/" b) as [<-|]; [contradiction|].
      destruct (ascii_dec "/" c) as [<-|]; [discriminate Hc|reflexivity].
Qed.

Lemma prefix_dotdot : forall c s,
  String.prefix ".." (String c s) = char_eqb c "."%char && starts_dot s.
Proof.
  intros c s. rewrite prefix_cons. unfold char_eqb.
  destruct (ascii_dec "." c) as [<-|N].
  - rewrite Ascii.eqb_refl. cbn [andb]. destruct s as [|d s]; [reflexivity|].
    rewrite prefix_cons. unfold starts_dot, char_eqb.
    destruct (ascii_dec "." d) as [<-|N2]; [rewrite Ascii.eqb_refl; apply prefix_nil|].
    destruct (Ascii.eqb_spec d "."); [congruence|reflexivity].
  - destruct (Ascii.eqb_spec c "."); [congruence|reflexivity].
Qed.

Lemma Contains_dotdot_cons : forall c s,
  Contains (String c s) ".." = (char_eqb c "."%char && starts_dot s) || Contains s "..".
Proof.
  intros c s. change (String.prefix ".." (String c s) || Contains s ".." =
                      (char_eqb c "."%char && starts_dot s) || Contains s "..").
  now rewrite prefix_dotdot.
Qed.

(** The invariant of the loop of [Clean] on a relative path without [".."]:
    the output has no two adjacent dots, and while an element is being
    copied the last output byte is the input byte just before [s]. *)
Lemma clean_loop_nodd : forall n s copying out dd,
  String.length s <= n -> Contains s ".." = false -> no_dd out = true ->
  (copying = true -> exists x o, out = x :: o /\ (char_eqb x "."%char && starts_dot s) = false) ->
  no_dd (clean_loop false copying s out dd) = true.
Proof.
  induction n as [|n IH]; intros s copying out dd Hn Hs Ho Hc.
  - destruct s; [exact Ho|cbn in Hn; lia].
  - destruct s as [|c s1]; [exact Ho|]. cbn [String.length] in Hn.
    rewrite Contains_dotdot_cons in Hs. apply orb_false_iff in Hs as [Hcs Hs1].
    clean_step_cbn.
    destruct (copying && negb (is_sep c)) eqn:Ecopy.
    { apply andb_prop in Ecopy as [Ecp _].
      destruct (Hc Ecp) as (x & o & -> & Hx). cbn [starts_dot] in Hx.
      apply IH; [lia|exact Hs1| |].
      - change (no_dd (c :: x :: o)) with (negb (char_eqb c "."%char && char_eqb x "."%char) && no_dd (x :: o)).
        rewrite Ho, (andb_comm (char_eqb c "."%char)), Hx. reflexivity.
      - intros _. exists c, (x :: o). auto. }
    destruct (is_sep c) eqn:Hsep.
    { apply IH; [lia|exact Hs1|exact Ho|discriminate]. }
    destruct (char_eqb c "."%char && at_sep_or_end s1).
    { apply IH; [lia|exact Hs1|exact Ho|discriminate]. }
    assert (Hdef : no_dd
      (clean_loop false true s1
        (c :: (if (false && negb (Nat.eqb (List.length out) 1)) ||
                   (negb false && negb (Nat.eqb (List.length out) 0))
               then "/"%char :: out else out)) dd) = true).
    { apply IH; [lia|exact Hs1| |].
      - destruct out as [|y o]; [reflexivity|]. cbn [List.length Nat.eqb negb andb orb].
        change (no_dd (c :: "/"%char :: y :: o))
          with (negb (char_eqb c "."%char && char_eqb "/"%char "."%char) &&
                (negb (char_eqb "/"%char "."%char && char_eqb y "."%char) && no_dd (y :: o))).
        rewrite Ho. change (char_eqb "/"%char "."%char) with false.
        rewrite !andb_false_r. reflexivity.
      - intros _. eexists; eexists; split; [reflexivity|exact Hcs]. }
    destruct s1 as [|d s2]; [exact Hdef|].
    destruct (char_eqb c "."%char && char_eqb d "."%char && at_sep_or_end s2) eqn:Edd; [|exact Hdef].
    exfalso. cbn [starts_dot] in Hcs.
    apply andb_prop in Edd as [Edd _]. rewrite Edd in Hcs. discriminate.
Qed.

Lemma string_of_rev_nodd : forall out acc,
  no_dd out = true -> Contains acc ".." = false -> (head_dot out && starts_dot acc) = false ->
  Contains (string_of_rev out acc) ".." = false.
Proof.
  induction out as [|x o IH]; intros acc Ho Ha Hh; [exact Ha|].
  cbn [string_of_rev]. apply IH.
  - destruct o as [|y o']; [reflexivity|].
    change (no_dd (x :: y :: o')) with (negb (char_eqb x "."%char && char_eqb y "."%char) && no_dd (y :: o')) in Ho.
    apply andb_prop in Ho as [_ Ho]. exact Ho.
  - rewrite Contains_dotdot_cons, Ha, orb_false_r. cbn [head_dot] in Hh. exact Hh.
  - destruct o as [|y o']; [reflexivity|].
    change (no_dd (x :: y :: o')) with (negb (char_eqb x "."%char && char_eqb y "."%char) && no_dd (y :: o')) in Ho.
    apply andb_prop in Ho as [Ho _]. apply negb_true_iff in Ho.
    cbn [head_dot starts_dot]. rewrite andb_comm. exact Ho.
Qed.

Lemma Contains_tail : forall s a t, Contains s (String a t) = true -> Contains s t = true.
Proof.
  induction s as [|c s IH]; intros a t H; [discriminate|].
  change (String.prefix (String a t) (String c s) || Contains s (String a t) = true) in H.
  apply orb_true_iff in H as [H|H].
  - rewrite prefix_cons in H. destruct (ascii_dec a c); [|discriminate].
    apply Contains_cons. apply Contains_prefix. exact H.
  - apply Contains_cons. exact (IH a t H).
Qed.

(** [filepath.Clean] of a relative path without [".."] has no [".."]. *)
Lemma Clean_no_dotdot : forall p,
  HasPrefix p "/" = false -> Contains p ".." = false -> Contains (Clean p) ".." = false.
Proof.
  intros [|c rest] Habs Hp; [reflexivity|]. unfold Clean.
  assert (Hc : is_sep c = false).
  { unfold HasPrefix in Habs. rewrite prefix_cons in Habs. unfold is_sep, char_eqb.
    destruct (Ascii.eqb_spec c "/"%char) as [->|]; [|reflexivity].
    destruct (ascii_dec "/" "/"); [rewrite prefix_nil in Habs; discriminate|congruence]. }
  rewrite Hc.
  pose proof (clean_loop_nodd (String.length (String c rest)) (String c rest) false [] 0
                (le_n _) Hp eq_refl ltac:(discriminate)) as H.
  destruct (clean_loop false false (String c rest) [] 0) as [|x o]; [reflexivity|].
  apply string_of_rev_nodd; [exact H|reflexivity|destruct (head_dot _); reflexivity].
Qed.

(** ** Validators *)

(** Extra X1: an image name that [validateImageName] accepts has between 2
    and 256 bytes, begins and ends with a letter or digit, contains no
    [':'] and no [".."]; in particular a one-character name is rejected. *)
Theorem validateImageName_accepted_shape : forall n,
  validateImageName n = None ->
  2 <= String.length n <= 256 /\ no_sep ":"%char n = true /\ Contains n ".." = false /\
  option_map is_alnum (get 0 n) = Some true /\ option_map is_alnum (last_char n) = Some true.
Proof. exact validateImageName_ok. Qed.

Lemma validateImageName_accepted_shape_witness :
  validateImageName "myorg/my-app" = None /\
  2 <= String.length "myorg/my-app" <= 256 /\ no_sep ":"%char "myorg/my-app" = true /\
  Contains "myorg/my-app" ".." = false /\
  option_map is_alnum (get 0 "myorg/my-app") = Some true /\
  option_map is_alnum (last_char "myorg/my-app") = Some true.
Proof.
  assert (H : validateImageName "myorg/my-app" = None) by reflexivity.
  split; [exact H|]. exact (validateImageName_accepted_shape "myorg/my-app" H).
Defined.

(** Extra X2: a tag that [validateTag] accepts has between 1 and 128 bytes,
    begins with a letter or digit and contains neither [':'] nor ['/']. *)
Theorem validateTag_accepted_shape : forall t,
  validateTag t = None ->
  1 <= String.length t <= 128 /\ no_sep ":"%char t = true /\ no_sep "/"%char t = true /\
  option_map is_alnum (get 0 t) = Some true.
Proof. exact validateTag_ok. Qed.

Lemma validateTag_accepted_shape_witness :
  validateTag "1.2.3-rc_1" = None /\
  1 <= String.length "1.2.3-rc_1" <= 128 /\ no_sep ":"%char "1.2.3-rc_1" = true /\
  no_sep "/"%char "1.2.3-rc_1" = true /\ option_map is_alnum (get 0 "1.2.3-rc_1") = Some true.
Proof.
  assert (H : validateTag "1.2.3-rc_1" = None) by reflexivity.
  split; [exact H|]. exact (validateTag_accepted_shape "1.2.3-rc_1" H).
Defined.

(** Extra X3: a registry that [validateRegistry] accepts is [""],
    ["docker.io"], or a string of at most 256 bytes that begins with a
    letter or digit, contains no ['/'], and either has no [':'] or is a
    host without [':'] followed by [':'] and a non-empty run of digits. *)
Theorem validateRegistry_accepted_shape : forall r,
  validateRegistry r = None ->
  r = "" \/ r = "docker.io" \/
  (String.length r <= 256 /\ no_sep "/"%char r = true /\
   option_map is_alnum (get 0 r) = Some true /\
   (no_sep ":"%char r = true \/
    exists h port, r = h ++ String ":" port /\ no_sep ":"%char h = true /\
                   port <> "" /\ str_forallb is_digit port = true)).
Proof. exact validateRegistry_ok. Qed.

Lemma validateRegistry_accepted_shape_witness :
  validateRegistry "localhost:5000" = None /\
  ("localhost:5000" = "" \/ "localhost:5000" = "docker.io" \/
   (String.length "localhost:5000" <= 256 /\ no_sep "/"%char "localhost:5000" = true /\
    option_map is_alnum (get 0 "localhost:5000") = Some true /\
    (no_sep ":"%char "localhost:5000" = true \/
     exists h port, "localhost:5000" = h ++ String ":" port /\ no_sep ":"%char h = true /\
                    port <> "" /\ str_forallb is_digit port = true))).
Proof.
  assert (H : validateRegistry "localhost:5000" = None) by reflexivity.
  split; [exact H|]. exact (validateRegistry_accepted_shape "localhost:5000" H).
Defined.

(** ** Tags and image references *)

(** Extra X4: when tag resolution succeeds, every resolved tag passes
    [validateTag] (so it is non-empty, at most 128 bytes, without [':'] or
    ['/']), and there are at most as many resolved tags as templates. *)
Theorem resolve_tags_all_valid : forall v ts rt,
  resolve_tags v ts = inr rt ->
  Forall (fun r => validateTag r = None) rt /\ List.length rt <= List.length ts.
Proof.
  intros v. induction ts as [|t ts IH]; intros rt H.
  - injection H as <-. split; [constructor|reflexivity].
  - cbn [resolve_tags] in H.
    destruct (String.eqb (resolveTag v t) "").
    + destruct (IH rt H) as [H1 H2]. split; [exact H1|cbn [List.length]; lia].
    + destruct (validateTag (resolveTag v t)) eqn:Ev; [discriminate|].
      destruct (resolve_tags v ts) as [e|l]; [discriminate|].
      injection H as <-. destruct (IH l eq_refl) as [H1 H2].
      split; [constructor; assumption|cbn [List.length]; lia].
Qed.

Lemma resolve_tags_all_valid_witness :
  resolve_tags "v1.2.3" ["{{version}}"; "{{major}}.{{minor}}"; "latest"] = inr ["1.2.3"; "1.2"; "latest"] /\
  Forall (fun r => validateTag r = None) ["1.2.3"; "1.2"; "latest"] /\ 3 <= 3.
Proof.
  assert (H : resolve_tags "v1.2.3" ["{{version}}"; "{{major}}.{{minor}}"; "latest"] =
              inr ["1.2.3"; "1.2"; "latest"]) by (vm_compute; reflexivity).
  split; [exact H|]. exact (resolve_tags_all_valid _ _ _ H).
Defined.

(** Extra X5: a tag template without ["{{"] is resolved to itself, whatever
    the version: literal tags such as ["latest"] are kept verbatim. *)
Theorem resolveTag_literal_unchanged : forall v t,
  Contains t "{{" = false -> resolveTag v t = t.
Proof. exact resolveTag_literal. Qed.

Lemma resolveTag_literal_unchanged_witness :
  Contains "stable-{version}" "{{" = false /\ resolveTag "v2.0.0" "stable-{version}" = "stable-{version}".
Proof.
  assert (H : Contains "stable-{version}" "{{" = false) by reflexivity.
  split; [exact H|]. exact (resolveTag_literal_unchanged "v2.0.0" _ H).
Defined.

(** Extra X6: image references determine their parts: for two
    configurations whose images pass [validateImageName] and whose
    registries pass [validateRegistry], and which both or neither put their
    registry in front, equal image references have the same image, the same
    tag and, when the registry is in front, the same registry. *)
Theorem imageRef_injective : forall cfg1 cfg2 t1 t2,
  registry_prefixed cfg1 = registry_prefixed cfg2 ->
  validateRegistry (Registry cfg1) = None -> validateRegistry (Registry cfg2) = None ->
  validateImageName (Image cfg1) = None -> validateImageName (Image cfg2) = None ->
  imageRef cfg1 t1 = imageRef cfg2 t2 ->
  (registry_prefixed cfg1 = true -> Registry cfg1 = Registry cfg2) /\
  Image cfg1 = Image cfg2 /\ t1 = t2.
Proof.
  intros cfg1 cfg2 t1 t2 Hp Hr1 Hr2 Hi1 Hi2 H.
  rewrite !imageRef_split, <- Hp in H.
  pose proof (proj1 (proj2 (validateImageName_ok _ Hi1))) as Hc1.
  pose proof (proj1 (proj2 (validateImageName_ok _ Hi2))) as Hc2.
  destruct (registry_prefixed cfg1) eqn:P1.
  - pose proof (registry_prefixed_no_slash cfg1 P1 Hr1) as Hs1.
    pose proof (registry_prefixed_no_slash cfg2 (eq_sym Hp) Hr2) as Hs2.
    destruct (cancel_sep _ _ _ _ _ Hs1 Hs2 H) as [HR H'].
    destruct (cancel_sep _ _ _ _ _ Hc1 Hc2 H') as [HI HT]. auto.
  - destruct (cancel_sep _ _ _ _ _ Hc1 Hc2 H) as [HI HT]. split; [discriminate|auto].
Qed.

Lemma imageRef_injective_witness :
  (registry_prefixed cfg_login = true -> Registry cfg_login = Registry cfg_login) /\
  Image cfg_login = Image cfg_login /\ "1.2.3" = "1.2.3".
Proof.
  apply (imageRef_injective cfg_login cfg_login "1.2.3" "1.2.3"); reflexivity.
Defined.

(** ** The build command *)


(** ** The calls issued *)

(** Extra X8: whatever the request and the executor's answers, every
    command [Execute] issues runs without standard input except the login
    command, whose standard input is the password. *)
Theorem Execute_stdin_only_login : forall exec req tr,
  exists new, snd (Execute exec req tr) = app tr new /\
  Forall (fun c => stdin c = None \/
                   (c = login_call (ReqConfig req) /\ stdin c = Some (Password (ReqConfig req)))) new.
Proof.
  intros exec req tr.
  destruct (Execute_trace exec req tr) as [H|(rt & names & k & _ & _ & _ & H)].
  - exists []. rewrite app_nil_r. split; [exact H|constructor].
  - eexists. split; [exact H|]. apply Forall_forall. intros c Hc.
    apply in_map_iff in Hc as (s & <- & Hs). destruct s; cbn [step_call].
    + right. split; reflexivity.
    + left. reflexivity.
    + left. reflexivity.
Qed.

(** Extra X9: when the push flag is off, no command [Execute] issues is a
    [docker push]. *)
Theorem Execute_no_push_without_flag : forall exec req tr,
  Push (ReqConfig req) = false ->
  exists new, snd (Execute exec req tr) = app tr new /\
  Forall (fun c => hd_error (args c) <> Some "push") new.
Proof.
  intros exec req tr Hp.
  destruct (Execute_trace exec req tr) as [H|(rt & names & k & _ & _ & _ & H)].
  - exists []. rewrite app_nil_r. split; [exact H|constructor].
  - eexists. split; [exact H|]. apply Forall_forall. intros c Hc.
    apply in_map_iff in Hc as (s & <- & Hs). apply In_firstn in Hs.
    unfold planned_steps in Hs. rewrite Hp, app_nil_r in Hs.
    apply in_app_iff in Hs as [Hs|[<-|[]]].
    + destruct (negb _ && negb _); [|destruct Hs].
      destruct Hs as [<-|[]]. cbn [step_call]. unfold login_call.
      destruct (negb _); cbn; discriminate.
    + cbn [step_call]. destruct (build_call_args (ReqConfig req) names (ReqContext req)) as [mid ->].
      cbn. discriminate.
Qed.

Lemma Execute_no_push_without_flag_witness :
  exists new, snd (Execute exec_ok req_no_push []) = app [] new /\
  Forall (fun c => hd_error (args c) <> Some "push") new.
Proof. apply Execute_no_push_without_flag. reflexivity. Defined.

(** Extra X10: when every command succeeds, a non-dry run after successful
    validation issues exactly the planned commands (login when both
    credentials are set, the build, one push per image reference when the
    push flag is set), and reports success with the number of resolved tags
    in its message; there are as many image references as resolved tags. *)
Theorem buildAndPush_all_succeed : forall exec cfg rc tr rt names,
  (forall tr0 c, exec tr0 c = None) ->
  validate_and_resolve cfg rc = inr (rt, names) ->
  buildAndPush exec cfg rc false tr =
    (({| Success := true;
         Message := "Built and pushed Docker image with " ++ itoa (List.length rt) ++ " tags";
         Error := "";
         Outputs := [("image", AString (Image cfg)); ("tags", AStrings rt);
                     ("pushed", ABool (Push cfg))] |}, None),
     app tr (map (step_call cfg names rc) (planned_steps cfg names))) /\
  List.length names = List.length rt.
Proof.
  intros exec cfg rc tr rt names Hok E. split.
  - unfold buildAndPush. rewrite E. cbv iota zeta.
    unfold planned_steps, dockerLogin, dockerBuild.
    assert (Hb : forall tr0,
      bind (Run exec (build_call cfg names rc)) (fun e =>
       match e with
       | Some err => ret (failure ("failed to build image: " ++ err), None)
       | None =>
           bind (if Push cfg then push_all exec names else ret None) (fun r =>
           match r with
           | Some resp => ret (resp, None)
           | None =>
               ret ({| Success := true;
                       Message := "Built and pushed Docker image with "
                                  ++ itoa (List.length rt) ++ " tags";
                       Error := "";
                       Outputs := [("image", AString (Image cfg));
                                   ("tags", AStrings rt);
                                   ("pushed", ABool (Push cfg))] |}, @None string)
           end)
       end) tr0 =
      (({| Success := true;
           Message := "Built and pushed Docker image with " ++ itoa (List.length rt) ++ " tags";
           Error := "";
           Outputs := [("image", AString (Image cfg)); ("tags", AStrings rt);
                       ("pushed", ABool (Push cfg))] |}, None),
       app tr0 (map (step_call cfg names rc) (SBuild :: (if Push cfg then map SPush names else []))))).
    { intros tr0. rewrite bind_Run, Hok. cbn [map step_call].
      destruct (Push cfg).
      - unfold bind at 1. rewrite push_all_all_ok by exact Hok.
        rewrite map_map, <- app_assoc. reflexivity.
      - cbn. reflexivity. }
    destruct (negb _ && negb _); cbn [app].
    + rewrite bind_Run, Hok, Hb. cbn [map step_call]. rewrite <- app_assoc. reflexivity.
    + apply Hb.
  - apply validate_and_resolve_inr in E as (_ & -> & _). apply length_map.
Qed.

Lemma buildAndPush_all_succeed_witness :
  buildAndPush exec_ok cfg_myapp {| Version := "v1.2.3" |} false [] =
    (({| Success := true;
         Message := "Built and pushed Docker image with " ++ itoa 2 ++ " tags";
         Error := "";
         Outputs := [("image", AString "myorg/myapp"); ("tags", AStrings ["1.2.3"; "latest"]);
                     ("pushed", ABool true)] |}, None),
     app [] (map (step_call cfg_myapp ["myorg/myapp:1.2.3"; "myorg/myapp:latest"] {| Version := "v1.2.3" |})
                 (planned_steps cfg_myapp ["myorg/myapp:1.2.3"; "myorg/myapp:latest"]))) /\
  List.length ["myorg/myapp:1.2.3"; "myorg/myapp:latest"] = List.length ["1.2.3"; "latest"].
Proof.
  apply (buildAndPush_all_succeed exec_ok cfg_myapp {| Version := "v1.2.3" |} [] ["1.2.3"; "latest"]).
  - reflexivity.
  - vm_compute. reflexivity.
Defined.

(** ** [getStringMap] *)

(** Extra X11: [getStringMap raw key] is a map (no key twice); looking a key
    up in it gives the string stored under that key in the map [raw[key]],
    and nothing when [raw[key]] is missing or not a map, or when the value
    under the key is not a string. *)
Theorem getStringMap_lookup : forall raw key k,
  (forall m, lookup key raw = Some (VMap m) -> NoDup (map fst m)) ->
  lookup k (getStringMap raw key) =
    match lookup key raw with
    | Some (VMap m) => match lookup k m with Some (VString s) => Some s | _ => None end
    | _ => None
    end /\
  NoDup (map fst (getStringMap raw key)).
Proof.
  intros raw key k Hd. rewrite getStringMap_fold.
  destruct (lookup key raw) as [[]|] eqn:E; try (split; [reflexivity|constructor]).
  split.
  - rewrite fold_string_entry_lookup by exact (Hd _ eq_refl).
    destruct (lookup k m) as [[]|]; reflexivity.
  - apply fold_string_entry_nodup. constructor.
Qed.

Lemma getStringMap_lookup_witness :
  lookup "GO_VERSION" (getStringMap raw_example "build_args") = Some "1.22" /\
  NoDup (map fst (getStringMap raw_example "build_args")).
Proof.
  apply (getStringMap_lookup raw_example "build_args" "GO_VERSION").
  intros m Hm. injection Hm as <-. repeat constructor; cbn; intuition discriminate.
Defined.

(** ** [Validate] *)

(** Extra X12: when [Validate] reports no error, the checks [buildAndPush]
    makes on the configuration [parseConfig] builds from the same input can
    only fail on a tag template containing ["{{"] whose resolved value
    [validateTag] rejects; so every rejection of the image, registry, paths,
    build-arg keys, label keys or a literal tag is already reported by
    [Validate]. *)
Theorem Validate_clean_config_runtime : forall config P rc resp,
  Validate config P = [] ->
  validate_and_resolve (parseConfig config P) rc = inl resp ->
  exists t m, In t (effective_tags (parseConfig config P)) /\ Contains t "{{" = true /\
    validateTag (resolveTag (Version rc) t) = Some m /\
    Error resp = "invalid tag '" ++ resolveTag (Version rc) t ++ "': " ++ m.
Proof. exact Validate_nil_runtime. Qed.

Lemma Validate_clean_config_runtime_witness :
  exists t m, In t (effective_tags (parseConfig [] parsed_template)) /\ Contains t "{{" = true /\
    validateTag (resolveTag (Version {| Version := "v1.0.0+build" |}) t) = Some m /\
    Error (failure "invalid tag '1.0.0+build': invalid tag: contains disallowed characters") =
      "invalid tag '" ++ resolveTag (Version {| Version := "v1.0.0+build" |}) t ++ "': " ++ m.
Proof.
  apply (Validate_clean_config_runtime [] parsed_template {| Version := "v1.0.0+build" |}).
  - vm_compute. reflexivity.
  - vm_compute. reflexivity.
Defined.

(** ** [validatePath] *)

(** Extra X13: [validatePath] rejects a path as absolute exactly when it
    begins with ['/']. *)
Theorem validatePath_absolute_iff : forall p,
  validatePath p = Some "absolute paths are not allowed" <-> HasPrefix p "/" = true.
Proof.
  intros p. unfold validatePath.
  destruct (String.eqb_spec p "") as [->|N]; [split; discriminate|].
  rewrite Clean_IsAbs. destruct (HasPrefix p "/"); [split; reflexivity|].
  destruct (HasPrefix (Clean p) ".." || Contains (Clean p) "/..");
    split; discriminate.
Qed.

(** Extra X14: [validatePath] accepts every path that does not begin with
    ['/'] and does not contain [".."]. *)
Theorem validatePath_accepts_plain_relative : forall p,
  HasPrefix p "/" = false -> Contains p ".." = false -> validatePath p = None.
Proof.
  intros p Habs Hdd. unfold validatePath.
  destruct (String.eqb p ""); [reflexivity|].
  rewrite Clean_IsAbs, Habs. pose proof (Clean_no_dotdot p Habs Hdd) as Hc.
  destruct (HasPrefix (Clean p) "..") eqn:E1.
  - unfold HasPrefix in E1. apply Contains_prefix in E1. congruence.
  - destruct (Contains (Clean p) "/..") eqn:E2; [|reflexivity].
    apply Contains_tail in E2. congruence.
Qed.

Lemma validatePath_accepts_plain_relative_witness :
  validatePath "docker/./Dockerfile.prod" = None.
Proof. apply validatePath_accepts_plain_relative; reflexivity. Defined.
